(** * Client-side Mermaid rendering script of the documentation site

    The only runtime logic of the repository is the inline script that
    [astro.config.mjs] injects into every page: it converts
    [pre[data-language="mermaid"]] blocks into [div.mermaid] mount elements,
    renders them with the Mermaid engine, wraps every rendered [svg] in a
    pan/zoom container and re-renders on every change of the [data-theme]
    attribute of the document root.

    This file embeds that script over an explicit model of the DOM (element
    trees with node identities, detached subtrees kept aside), of
    [window.mermaidSources], of the console and of the two external
    libraries (Mermaid, svg-pan-zoom), and proves properties of it. *)

From Stdlib Require Import ZArith Lia Bool Arith List String Ascii Permutation.
From Stdlib Require Decimal DecimalString DecimalNat.
From Stdlib Require Import PrimFloat.
Import ListNotations.
Local Open Scope string_scope.
Local Open Scope list_scope.

Set Implicit Arguments.
Set Warnings "-register-all".

(* ------------------------------------------------------------------ *)
(** ** DOM nodes *)

(** A text node, or an element with an identity (standing for the JS object
    reference), a tag name, its class list, its attributes and children. *)
Inductive node : Type :=
| Text (data : string)
| Elem (id : nat) (tag : string) (classes : list string)
       (attrs : list (string * string)) (kids : list node).

Definition node_id (n : node) : option nat :=
  match n with Text _ => None | Elem i _ _ _ _ => Some i end.

Definition is_id (i : nat) (n : node) : bool :=
  match n with Text _ => false | Elem j _ _ _ _ => Nat.eqb j i end.

Definition children (n : node) : list node :=
  match n with Text _ => [] | Elem _ _ _ _ ks => ks end.

(** Attribute lists: [getAttribute], [setAttribute], [removeAttribute]. *)
Fixpoint getAttribute (a : list (string * string)) (k : string) : option string :=
  match a with
  | [] => None
  | (k', v) :: r => if String.eqb k' k then Some v else getAttribute r k
  end.

Fixpoint setAttribute (a : list (string * string)) (k v : string)
  : list (string * string) :=
  match a with
  | [] => [(k, v)]
  | (k', v') :: r =>
      if String.eqb k' k then (k, v) :: r else (k', v') :: setAttribute r k v
  end.

Fixpoint removeAttribute (a : list (string * string)) (k : string)
  : list (string * string) :=
  match a with
  | [] => []
  | (k', v') :: r =>
      if String.eqb k' k then removeAttribute r k
      else (k', v') :: removeAttribute r k
  end.

Definition has_class (c : string) (n : node) : bool :=
  match n with
  | Text _ => false
  | Elem _ _ cs _ _ => existsb (String.eqb c) cs
  end.

Definition has_tag (t : string) (n : node) : bool :=
  match n with
  | Text _ => false
  | Elem _ t' _ _ _ => String.eqb t' t
  end.

Definition attr_of (n : node) (k : string) : option string :=
  match n with
  | Text _ => None
  | Elem _ _ _ a _ => getAttribute a k
  end.

Definition attr_is (k v : string) (n : node) : bool :=
  match attr_of n k with
  | Some v' => String.eqb v' v
  | None => false
  end.

(** [textContent]: the concatenation of all text below a node. *)
Fixpoint textContent (n : node) : string :=
  match n with
  | Text s => s
  | Elem _ _ _ _ ks => fold_right (fun k acc => (textContent k ++ acc)%string) "" ks
  end.

(** Assigning [el.textContent = s]: the children become one text node, or
    none when [s] is empty. *)
Definition text_kids (s : string) : list node :=
  if String.eqb s "" then [] else [Text s].

(** Elements below a node in document order (pre-order), the node itself
    excluded, and the node's whole subtree. *)
Fixpoint descendants (n : node) : list node :=
  match n with
  | Text _ => []
  | Elem _ _ _ _ ks => flat_map (fun k => k :: descendants k) ks
  end.

Definition subtree (n : node) : list node := n :: descendants n.

Definition ids_of (l : list node) : list nat :=
  flat_map (fun n => match node_id n with Some i => [i] | None => [] end) l.

(** All element identities of a subtree. *)
Definition all_ids (n : node) : list nat := ids_of (subtree n).

(* ------------------------------------------------------------------ *)
(** ** Selectors *)

(** [root.querySelectorAll(sel)] for a simple selector given as a predicate:
    the matching elements below [root] (the script only ever calls it on
    [document], whose root element is part of the search). *)
Definition querySelectorAll (sel : node -> bool) (root : node) : list nat :=
  ids_of (filter sel (subtree root)).

(** [el.querySelector(sel)]: the first matching proper descendant. *)
Definition querySelector (sel : node -> bool) (el : node) : option node :=
  find sel (descendants el).

(** [document.querySelectorAll('A B')]: the elements matching [B] that have
    a proper ancestor matching [A]. *)
Fixpoint select_below (anc sel : node -> bool) (inside : bool) (n : node)
  : list node :=
  match n with
  | Text _ => []
  | Elem _ _ _ _ ks =>
      (if inside && sel n then [n] else [])
        ++ flat_map (select_below anc sel (inside || anc n)) ks
  end.

Definition querySelectorAll_desc (anc sel : node -> bool) (root : node)
  : list nat :=
  ids_of (select_below anc sel false root).

Definition sel_mermaid_pre (n : node) : bool :=
  has_tag "pre" n && attr_is "data-language" "mermaid" n.
Definition sel_container : node -> bool := has_class "mermaid-container".
Definition sel_mermaid : node -> bool := has_class "mermaid".
Definition sel_svg : node -> bool := has_tag "svg".
Definition sel_code : node -> bool := has_tag "code".
Definition sel_figure : node -> bool := has_tag "figure".

(* ------------------------------------------------------------------ *)
(** ** Tree surgery by node identity *)

Definition find_node (i : nat) (root : node) : option node :=
  find (is_id i) (subtree root).

(** Apply [f] to the element with identity [i]. *)
Fixpoint update_node (i : nat) (f : node -> node) (n : node) {struct n} : node :=
  match n with
  | Text _ => n
  | Elem j t c a ks =>
      if Nat.eqb j i then f n else Elem j t c a (map (update_node i f) ks)
  end.

(** Take the element [i] out of its parent's child list. *)
Fixpoint remove_node (i : nat) (n : node) {struct n} : node :=
  match n with
  | Text _ => n
  | Elem j t c a ks =>
      Elem j t c a
        (flat_map (fun k => if is_id i k then [] else [remove_node i k]) ks)
  end.

(** Put [new] in the place of the child [i]. *)
Fixpoint replace_node (i : nat) (new : node) (n : node) {struct n} : node :=
  match n with
  | Text _ => n
  | Elem j t c a ks =>
      Elem j t c a
        (map (fun k => if is_id i k then new else replace_node i new k) ks)
  end.

(** Put [new] just before the child [ref]. *)
Fixpoint insert_before (ref : nat) (new : node) (n : node) {struct n} : node :=
  match n with
  | Text _ => n
  | Elem j t c a ks =>
      Elem j t c a
        (flat_map (fun k => if is_id ref k then [new; k]
                            else [insert_before ref new k]) ks)
  end.

(** The chain of elements from [n] down to the element [i] (both included);
    empty when [i] is not in the subtree. *)
Fixpoint path_to (i : nat) (n : node) {struct n} : list node :=
  match n with
  | Text _ => []
  | Elem j _ _ _ ks =>
      if Nat.eqb j i then [n]
      else
        match fold_right (fun k acc => match path_to i k with
                                       | [] => acc
                                       | p => p
                                       end) [] ks with
        | [] => []
        | p => n :: p
        end
  end.

Definition set_kids (ks : list node) (n : node) : node :=
  match n with
  | Text _ => n
  | Elem j t c a _ => Elem j t c a ks
  end.

Definition set_attr (k v : string) (n : node) : node :=
  match n with
  | Text _ => n
  | Elem j t c a ks => Elem j t c (setAttribute a k v) ks
  end.

Definition remove_attr (k : string) (n : node) : node :=
  match n with
  | Text _ => n
  | Elem j t c a ks => Elem j t c (removeAttribute a k) ks
  end.

Definition append_kid (new : node) (n : node) : node :=
  match n with
  | Text _ => n
  | Elem j t c a ks => Elem j t c a (ks ++ [new])
  end.

(** The DOM of one page: the document tree (rooted at its body element) and
    the detached subtrees that script variables may still refer to. *)
Record dom : Type := Dom { doc : node; orphans : list node }.

Definition trees (d : dom) : list node := doc d :: orphans d.

Definition map_trees (f : node -> node) (d : dom) : dom :=
  Dom (f (doc d)) (map f (orphans d)).

Definition dom_get (d : dom) (i : nat) : option node :=
  find (is_id i) (flat_map subtree (trees d)).

(** The chain of ancestors of [i], nearest first, [i] itself included. *)
Definition ancestors_or_self (d : dom) (i : nat) : list node :=
  rev (fold_right (fun t acc => match path_to i t with
                                | [] => acc
                                | p => p
                                end) [] (trees d)).

(** [el.closest(sel)]. *)
Definition closest (sel : node -> bool) (d : dom) (i : nat) : option node :=
  find sel (ancestors_or_self d i).

(** [el.parentNode]. *)
Definition parentNode (d : dom) (i : nat) : option node :=
  match ancestors_or_self d i with
  | _ :: p :: _ => Some p
  | _ => None
  end.

(** Detach the subtree [i] from wherever it is (a no-op for a node that was
    just created and is in no tree). *)
Definition dom_detach (d : dom) (i : nat) : dom :=
  Dom (remove_node i (doc d))
      (map (remove_node i) (filter (fun t => negb (is_id i t)) (orphans d))).

Definition adopt (d : dom) (new : node) : dom :=
  match node_id new with
  | Some i => dom_detach d i
  | None => d
  end.

(** [old.replaceWith(new)]: nothing happens when [old] has no parent;
    otherwise [new] leaves its former place, takes the place of [old], and
    [old] stays around detached. *)
Definition replaceWith (d : dom) (old : nat) (new : node) : dom :=
  match parentNode d old with
  | None => d
  | Some _ =>
      let d1 := adopt d new in
      match dom_get d1 old with
      | None => d1
      | Some o =>
          let d2 := map_trees (replace_node old new) d1 in
          Dom (doc d2) (orphans d2 ++ [o])
      end
  end.

(** [ref.parentNode.insertBefore(new, ref)]. *)
Definition insertBefore (d : dom) (ref : nat) (new : node) : dom :=
  map_trees (insert_before ref new) (adopt d new).

(** [parent.appendChild(new)]. *)
Definition appendChild (d : dom) (parent : nat) (new : node) : dom :=
  map_trees (update_node parent (append_kid new)) (adopt d new).

(** [el.textContent = s]: the former children are detached. *)
Definition set_textContent (d : dom) (i : nat) (s : string) : dom :=
  match dom_get d i with
  | None => d
  | Some n =>
      let d1 := map_trees (update_node i (set_kids (text_kids s))) d in
      Dom (doc d1) (orphans d1 ++ children n)
  end.

Definition dom_set_attr (d : dom) (i : nat) (k v : string) : dom :=
  map_trees (update_node i (set_attr k v)) d.

Definition dom_remove_attr (d : dom) (i : nat) (k : string) : dom :=
  map_trees (update_node i (remove_attr k)) d.

(* ------------------------------------------------------------------ *)
(** ** JavaScript values the script relies on *)

(** [String(n)] for an array index. *)
Definition string_of_nat (n : nat) : string :=
  DecimalString.NilEmpty.string_of_uint (Nat.to_uint n).

(** [StrWhiteSpaceChar]: the white space and line terminators that
    [parseInt] skips.  Strings are byte sequences, UTF-8 above 127; a
    no-break space is also accepted as the single code unit 160. *)
Definition is_space (c : ascii) : bool :=
  let n := nat_of_ascii c in
  Nat.eqb n 32 || (Nat.leb 9 n && Nat.leb n 13) || Nat.eqb n 160.

(** U+00A0 in two bytes. *)
Definition is_space2 (c1 c2 : ascii) : bool :=
  Nat.eqb (nat_of_ascii c1) 194 && Nat.eqb (nat_of_ascii c2) 160.

(** U+1680, U+2000 to U+200A, U+2028, U+2029, U+202F, U+205F, U+3000 and
    U+FEFF in three bytes. *)
Definition is_space3 (c1 c2 c3 : ascii) : bool :=
  let a := nat_of_ascii c1 in
  let b := nat_of_ascii c2 in
  let c := nat_of_ascii c3 in
  (Nat.eqb a 225 && Nat.eqb b 154 && Nat.eqb c 128) ||
  (Nat.eqb a 226 && Nat.eqb b 128 &&
   ((Nat.leb 128 c && Nat.leb c 138) || Nat.eqb c 168 || Nat.eqb c 169 ||
    Nat.eqb c 175)) ||
  (Nat.eqb a 226 && Nat.eqb b 129 && Nat.eqb c 159) ||
  (Nat.eqb a 227 && Nat.eqb b 128 && Nat.eqb c 128) ||
  (Nat.eqb a 239 && Nat.eqb b 187 && Nat.eqb c 191).

Fixpoint skip_spaces (s : string) : string :=
  match s with
  | EmptyString => s
  | String c1 r1 =>
      if is_space c1 then skip_spaces r1
      else
        match r1 with
        | EmptyString => s
        | String c2 r2 =>
            if is_space2 c1 c2 then skip_spaces r2
            else
              match r2 with
              | EmptyString => s
              | String c3 r3 =>
                  if is_space3 c1 c2 c3 then skip_spaces r3 else s
              end
        end
  end.

Definition digit_of (radix : Z) (c : ascii) : option Z :=
  let n := Z.of_nat (nat_of_ascii c) in
  let v := (if (48 <=? n) && (n <=? 57) then n - 48
            else if (97 <=? n) && (n <=? 122) then n - 87
            else if (65 <=? n) && (n <=? 90) then n - 55
            else 36)%Z in
  if (v <? radix)%Z then Some v else None.

(** The value of the longest prefix of digits, [None] when there is none. *)
Fixpoint parse_digits (radix : Z) (s : string) (acc : option Z) : option Z :=
  match s with
  | String c r =>
      match digit_of radix c with
      | Some v =>
          parse_digits radix r
            (Some (radix * match acc with Some a => a | None => 0 end + v)%Z)
      | None => acc
      end
  | EmptyString => acc
  end.

Definition parse_unsigned (s : string) : option Z :=
  match s with
  | String "0" (String "x" r) => parse_digits 16 r None
  | String "0" (String "X" r) => parse_digits 16 r None
  | _ => parse_digits 10 s None
  end.

(** [parseInt(v)] of an attribute value; [None] is [NaN].  An absent
    attribute is [null], which [parseInt] reads as the text "null".
    (Indices are far below 2^53, so the number is taken as an integer.) *)
Definition parseInt (v : option string) : option Z :=
  match v with
  | None => None
  | Some s =>
      match skip_spaces s with
      | String "-" r => option_map Z.opp (parse_unsigned r)
      | String "+" r => parse_unsigned r
      | r => parse_unsigned r
      end
  end.

(** [arr[index]] for a number [index]; [None] is [undefined]. *)
Definition array_get (arr : list string) (index : option Z) : option string :=
  match index with
  | Some z => if (z <? 0)%Z then None else nth_error arr (Z.to_nat z)
  | None => None
  end.

(** JavaScript truthiness of a string-or-undefined. *)
Definition truthy (v : option string) : bool :=
  match v with
  | Some s => negb (String.eqb s "")
  | None => false
  end.

(** A string handed to a DOM setter; [undefined] is written as empty. *)
Definition or_empty (v : option string) : string :=
  match v with Some s => s | None => "" end.

(* ------------------------------------------------------------------ *)
(** ** Page state and the external libraries *)

Inductive log_entry : Type :=
| Log (msg : string)        (* console.log *)
| LogError (msg : string).  (* console.error *)

(** The options object given to [mermaid.initialize]. *)
Record engine_config : Type := Config {
  startOnLoad : bool;
  theme : string;
  logLevel : string
}.

Inductive engine_call : Type :=
| Initialize (c : engine_config)
| Run (nodes : list nat).

(** Everything the script can read or write on one loaded page. *)
Record world : Type := World {
  data_theme : option string;   (* data-theme of the document root *)
  page : dom;
  next_id : nat;                (* identity of the next created element *)
  mermaidSources : list string; (* window.mermaidSources *)
  console : list log_entry;     (* oldest first *)
  engine : option engine_config;(* Mermaid's current configuration *)
  calls : list engine_call;     (* calls made to Mermaid, oldest first *)
  panzoom : list nat;           (* graphics given a pan/zoom instance *)
  observing : bool              (* the MutationObserver is installed *)
}.

Definition with_page (w : world) (d : dom) : world :=
  World (data_theme w) d (next_id w) (mermaidSources w) (console w)
        (engine w) (calls w) (panzoom w) (observing w).

Definition with_next (w : world) (n : nat) : world :=
  World (data_theme w) (page w) n (mermaidSources w) (console w)
        (engine w) (calls w) (panzoom w) (observing w).

Definition push_source (w : world) (s : string) : world :=
  World (data_theme w) (page w) (next_id w) (mermaidSources w ++ [s])
        (console w) (engine w) (calls w) (panzoom w) (observing w).

Definition log (w : world) (e : log_entry) : world :=
  World (data_theme w) (page w) (next_id w) (mermaidSources w)
        (console w ++ [e]) (engine w) (calls w) (panzoom w) (observing w).

Definition call_engine (w : world) (c : engine_call) : world :=
  World (data_theme w) (page w) (next_id w) (mermaidSources w) (console w)
        (match c with Initialize cfg => Some cfg | Run _ => engine w end)
        (calls w ++ [c]) (panzoom w) (observing w).

Definition add_panzoom (w : world) (i : nat) : world :=
  World (data_theme w) (page w) (next_id w) (mermaidSources w) (console w)
        (engine w) (calls w) (panzoom w ++ [i]) (observing w).

Definition observe (w : world) : world :=
  World (data_theme w) (page w) (next_id w) (mermaidSources w) (console w)
        (engine w) (calls w) (panzoom w) true.

Definition set_data_theme (w : world) (v : option string) : world :=
  World v (page w) (next_id w) (mermaidSources w) (console w)
        (engine w) (calls w) (panzoom w) (observing w).

(** Modelled from the spec: Mermaid is loaded from a CDN and is not part of
    the repository.  What the diagramming engine leaves in a mount element
    is a rendered [svg] (with the attributes the engine gives it) or, for a
    diagram text it cannot render, its own inline error text. *)
Inductive outcome : Type :=
| Graphic (svg_attrs : list (string * string))
| Failed (shown : string).

(** The browser and the two libraries loaded from the CDN are not part of
    the repository; what the script observes of them is taken as given. *)
Record externals : Type := Externals {
  innerText : node -> string;            (* layout-dependent text of a node *)
  render : string -> string -> outcome;  (* Mermaid: theme, diagram text *)
  run_rejects : string -> list node -> bool;
                                         (* does mermaid.run reject? *)
  getBBox_height : node -> float;        (* svg.getBBox().height, a double *)
  number_toString : float -> string;     (* the text of a Number, as in n + 'px' *)
  svgPanZoom_throws : node -> bool       (* does svgPanZoom(svg, ..) throw? *)
}.

Definition set_children (d : dom) (i : nat) (ks : list node) : dom :=
  match dom_get d i with
  | None => d
  | Some n =>
      let d1 := map_trees (update_node i (set_kids ks)) d in
      Dom (doc d1) (orphans d1 ++ children n)
  end.

(** [forEach((x, index) => ..)] over a static node list. *)
Definition forEach {S : Type} (l : list nat) (f : S -> nat -> nat -> S)
  (s : S) : S :=
  fold_left (fun acc xi => f acc (fst xi) (snd xi))
            (combine l (seq 0 (List.length l))) s.

(** A statement either completes or throws; both carry the state reached. *)
Inductive completion : Type :=
| Normal (w : world)
| Thrown (w : world).

Definition state_of (c : completion) : world :=
  match c with Normal w => w | Thrown w => w end.

(** [forEach] whose callback may throw: the first exception ends the loop. *)
Fixpoint forEach_try (l : list (nat * nat))
  (f : world -> nat -> nat -> completion) (w : world) : completion :=
  match l with
  | [] => Normal w
  | (x, i) :: r =>
      match f w x i with
      | Normal w' => forEach_try r f w'
      | Thrown w' => Thrown w'
      end
  end.

Definition indexed (l : list nat) : list (nat * nat) :=
  combine l (seq 0 (List.length l)).

(* ------------------------------------------------------------------ *)
(** ** The script *)

Section Script.

Variable X : externals.

(** [getCurrentTheme()]. *)
Definition getCurrentTheme (w : world) : string :=
  match data_theme w with
  | Some t => if String.eqb t "light" then "neutral" else "dark"
  | None => "dark"
  end.

(** [Math.max] on two Numbers: [NaN] when either is, and [+0] above [-0]. *)
Definition Math_max (x y : float) : float :=
  if PrimFloat.is_nan x || PrimFloat.is_nan y then PrimFloat.nan
  else if PrimFloat.ltb x y then y
  else if PrimFloat.ltb y x then x
  else if PrimFloat.get_sign x then y else x.

(** [svgHeight] for a graphic, [Math.max(bbox.height + 40, 300)], and the
    value of [svgHeight + 'px']. *)
Definition svg_height (g : node) : float :=
  Math_max (PrimFloat.add (getBBox_height X g) 40%float) 300%float.

Definition height_px (g : node) : string :=
  (number_toString X (svg_height g) ++ "px")%string.

Definition container_style (height : string) : list (string * string) :=
  [ ("style.border", "1px solid var(--sl-color-gray-5)");
    ("style.borderRadius", "4px");
    ("style.overflow", "visible");
    ("style.position", "relative");
    ("style.marginBottom", "1rem");
    ("style.height", height);
    ("style.minHeight", "300px") ]%string.

Definition hint_style : list (string * string) :=
  [ ("style.position", "absolute");
    ("style.top", "8px");
    ("style.right", "8px");
    ("style.background", "var(--sl-color-gray-6)");
    ("style.color", "var(--sl-color-white)");
    ("style.padding", "4px 8px");
    ("style.borderRadius", "4px");
    ("style.fontSize", "12px");
    ("style.zIndex", "10") ].

Definition hint_text : string := "🔍 Scroll to zoom, drag to pan".

(** The container and the hint that [addZoomControls] creates. *)
Definition container_node (c : nat) (height : string) (ks : list node)
  : node :=
  Elem c "div" ["mermaid-container"] (container_style height) ks.

Definition hint_node (h : nat) : node :=
  Elem h "div" ["mermaid-hint"] hint_style [Text hint_text].

(** The graphic after [svg.style.width = svg.style.height = '100%']: the
    element that [svgPanZoom] receives. *)
Definition styled_svg (g : node) : node :=
  set_attr "style.height" "100%" (set_attr "style.width" "100%" g).

(** [addZoomControls(svg, index)].  Reading [svg.parentNode.insertBefore]
    throws when the graphic has no parent; a failure of [svgPanZoom] is
    caught inside. *)
Definition addZoomControls (w : world) (svg index : nat) : completion :=
  match dom_get (page w) svg with
  | None => Thrown w
  | Some g =>
      let cid := next_id w in
      let hid := S (next_id w) in
      let container := container_node cid (height_px g) [] in
      let hint := hint_node hid in
      let w := with_next w (S (S (next_id w))) in
      match parentNode (page w) svg with
      | None => Thrown w
      | Some _ =>
          let d := insertBefore (page w) svg container in
          let d := appendChild d cid g in
          let d := appendChild d cid hint in
          let d := dom_set_attr d svg "style.width" "100%" in
          let d := dom_set_attr d svg "style.height" "100%" in
          let w := with_page w d in
          if svgPanZoom_throws X (styled_svg g)
          then Normal (log w (LogError "[Mermaid] Failed to enable zoom:"))
          else Normal (log (add_panzoom w svg)
                           (Log "[Mermaid] Zoom enabled for diagram"))
      end
  end.

(** First loop of the teardown: one [.mermaid-container]. *)
Definition unwrap_container (w : world) (c index : nat) : world :=
  match dom_get (page w) c with
  | None => w
  | Some cn =>
      match querySelector sel_mermaid cn with
      | Some (Elem m _ _ a _) =>
          let index := parseInt (getAttribute a "data-block-index") in
          let d := set_textContent (page w) m
                     (or_empty (array_get (mermaidSources w) index)) in
          let d := dom_remove_attr d m "data-processed" in
          match dom_get d m with
          | Some mermaidDiv => with_page w (replaceWith d c mermaidDiv)
          | None => with_page w d
          end
      | _ => w
      end
  end.

(** Second loop of the teardown: one [.mermaid] element. *)
Definition reset_mount (w : world) (m index : nat) : world :=
  match dom_get (page w) m with
  | None => w
  | Some mermaidDiv =>
      let index := parseInt (attr_of mermaidDiv "data-block-index") in
      match index with
      | Some _ =>
          if truthy (array_get (mermaidSources w) index) then
            let d := set_textContent (page w) m
                       (or_empty (array_get (mermaidSources w) index)) in
            with_page w (dom_remove_attr d m "data-processed")
          else w
      | None => w
      end
  end.

Definition teardown (w : world) : world :=
  let w := forEach (querySelectorAll sel_container (doc (page w)))
                   unwrap_container w in
  forEach (querySelectorAll sel_mermaid (doc (page w))) reset_mount w.

(** [renderMermaidDiagrams()] up to its first [await]: the teardown and
    [mermaid.initialize]. *)
Definition render_begin (w : world) : world :=
  let w := log w (Log "[Mermaid] Rendering diagrams with theme:") in
  let w := teardown w in
  call_engine w (Initialize (Config false (getCurrentTheme w) "error")).

(** Modelled from the spec: [mermaid.run({nodes})] on one node.  The batch
    call attempts every mount element it is given; as the comments of the
    teardown say, an element that carries [data-processed] is skipped; any
    other is marked and its text is rendered with the configured theme, a
    failure leaving the engine's error text in the element. *)
Definition run_node (w : world) (i : nat) : world :=
  match dom_get (page w) i with
  | None => w
  | Some n =>
      if truthy (attr_of n "data-processed") then w
      else
        let d := dom_set_attr (page w) i "data-processed" "true" in
        let th := match engine w with Some c => theme c | None => "default" end in
        match render X th (textContent n) with
        | Graphic a =>
            let svg := Elem (next_id w) "svg" [] a [] in
            with_next (with_page w (set_children d i [svg])) (S (next_id w))
        | Failed shown => with_page w (set_textContent d i shown)
        end
  end.

Definition nodes_of (d : dom) (l : list nat) : list node :=
  flat_map (fun i => match dom_get d i with Some n => [n] | None => [] end) l.

(** Modelled from the spec: the batch call, which resolves once all nodes
    have been attempted; the state it leaves, and whether its promise
    rejects instead (an unexpected engine failure). *)
Definition mermaid_run (w : world) (nodes : list nat) : world * bool :=
  let th := match engine w with Some c => theme c | None => "default" end in
  let rejects := run_rejects X th (nodes_of (page w) nodes) in
  (fold_left run_node nodes (call_engine w (Run nodes)), rejects).

(** After the 50 ms delay: query the mount elements and start the batch. *)
Definition render_run (w : world) : world * bool :=
  let elements := querySelectorAll sel_mermaid (doc (page w)) in
  let w := log w (Log "[Mermaid] Rendering diagrams") in
  mermaid_run w elements.

(** After the batch call has settled: the [catch] branch when it rejected,
    otherwise the zoom controls (an exception there is caught as well). *)
Definition render_finish (w : world) (rejected : bool) : world :=
  if rejected then log w (LogError "[Mermaid] Rendering failed:")
  else
    let w := log w (Log "[Mermaid] Rendering complete, adding zoom controls...") in
    match forEach_try
            (indexed (querySelectorAll_desc sel_mermaid sel_svg (doc (page w))))
            addZoomControls w with
    | Normal w' => w'
    | Thrown w' => log w' (LogError "[Mermaid] Rendering failed:")
    end.

(** One whole invocation of [renderMermaidDiagrams] with nothing else
    running in between. *)
Definition renderMermaidDiagrams (w : world) : world :=
  let '(w1, rejected) := render_run (render_begin w) in
  render_finish w1 rejected.

(** One iteration of the conversion loop of the load handler. *)
Definition convert_block (w : world) (pre index : nat) : world :=
  match dom_get (page w) pre with
  | None => w
  | Some p =>
      match querySelector sel_code p with
      | None => w
      | Some code =>
          let content :=
            if String.eqb (innerText X code) "" then textContent code
            else innerText X code in
          let w := push_source w content in
          let w := log w (Log "[Mermaid] Block") in
          let div :=
            Elem (next_id w) "div" ["mermaid"]
                 [("data-block-index", string_of_nat index)]
                 (text_kids content) in
          let w := with_next w (S (next_id w)) in
          match closest sel_figure (page w) pre with
          | Some (Elem figure _ _ _ _) =>
              with_page w (replaceWith (page w) figure div)
          | _ => with_page w (replaceWith (page w) pre div)
          end
      end
  end.

Definition convert (w : world) : world :=
  let w := log w (Log "[Mermaid] Starting conversion...") in
  let mermaidBlocks := querySelectorAll sel_mermaid_pre (doc (page w)) in
  let w := log w (Log "[Mermaid] Found blocks") in
  forEach mermaidBlocks convert_block w.

(** The body of the load handler's timer: conversion, the start of the
    first render and the installation of the theme observer. *)
Definition on_load (w : world) : world :=
  observe (render_begin (convert w)).

(** The observer callback for one mutation record of [data-theme]. *)
Definition on_theme_mutation (w : world) : world :=
  render_begin (log w (Log "[Mermaid] Theme changed, re-rendering diagrams...")).

End Script.

(** The page as the browser hands it to the script. *)
Definition initial_world (th : option string) (body : node) : world :=
  World th (Dom body []) (S (list_max (all_ids body))) [] [] None [] [] false.

(** The fields other than the DOM and the identity counter. *)
Definition outside (w : world) :=
  (data_theme w, mermaidSources w, console w, engine w, calls w, panzoom w,
   observing w).

(* ------------------------------------------------------------------ *)
(** ** The event loop *)

(** An invocation of [renderMermaidDiagrams] that has not returned yet is
    suspended at one of its two [await]s: the 50 ms delay, or the promise of
    [mermaid.run] (whose outcome is then already decided). *)
Inductive stage : Type :=
| Delaying
| Running (rejected : bool).

Record session : Type := Session {
  now : world;
  inflight : list stage   (* suspended invocations, oldest first *)
}.

(** What the browser can deliver to the page: the timer of the load
    handler, a mutation of [data-theme] on the document root, the end of
    the delay of the [k]-th suspended invocation, the settling of its batch
    call. *)
Inductive event : Type :=
| Load
| ThemeChange (v : option string)
| DelayElapsed (k : nat)
| RunSettled (k : nat).

Fixpoint set_nth {A : Type} (k : nat) (x : A) (l : list A) : list A :=
  match l, k with
  | [], _ => []
  | _ :: r, O => x :: r
  | y :: r, S k' => y :: set_nth k' x r
  end.

Fixpoint drop_nth {A : Type} (k : nat) (l : list A) : list A :=
  match l, k with
  | [], _ => []
  | _ :: r, O => r
  | y :: r, S k' => y :: drop_nth k' r
  end.

Definition step (X : externals) (s : session) (e : event) : session :=
  match e with
  | Load => Session (on_load X (now s)) (inflight s ++ [Delaying])
  | ThemeChange v =>
      let w := set_data_theme (now s) v in
      if observing w
      then Session (on_theme_mutation w) (inflight s ++ [Delaying])
      else Session w (inflight s)
  | DelayElapsed k =>
      match nth_error (inflight s) k with
      | Some Delaying =>
          let '(w, rejected) := render_run X (now s) in
          Session w (set_nth k (Running rejected) (inflight s))
      | _ => s
      end
  | RunSettled k =>
      match nth_error (inflight s) k with
      | Some (Running rejected) =>
          Session (render_finish X (now s) rejected) (drop_nth k (inflight s))
      | _ => s
      end
  end.

Definition run_events (X : externals) (evs : list event) (s : session)
  : session :=
  fold_left (step X) evs s.

Definition in_flight (s : session) : nat := List.length (inflight s).

(** "At most one render pass is in flight at any time." *)
Definition serialized (X : externals) (s : session) : Prop :=
  forall evs, in_flight (run_events X evs s) <= 1.

(* ------------------------------------------------------------------ *)
(** ** Sample pages and libraries *)

(** The text of the few Numbers that the sample pages need. *)
Definition sample_toString (x : float) : string :=
  if PrimFloat.eqb x 300%float then "300"
  else if PrimFloat.eqb x 300.5%float then "300.5"
  else "NaN".

(** Mermaid renders every text but "bad"; pan/zoom fails on no graphic. *)
Definition sample_externals : externals :=
  Externals (fun _ => "")
            (fun th s => if String.eqb s "bad" then Failed "Syntax error in text"
                         else Graphic [("aria-roledescription", th)])
            (fun _ _ => false)
            (fun _ => 120%float)
            sample_toString
            (fun _ => false).


(** The same libraries with a pan/zoom initialiser that always throws. *)
Definition static_externals : externals :=
  Externals (innerText sample_externals) (render sample_externals)
            (run_rejects sample_externals)
            (getBBox_height sample_externals)
            (number_toString sample_externals)
            (fun _ => true).

(** [<figure><pre data-language="mermaid"><code>src</code></pre></figure>]
    with identities [i], [i+1], [i+2]. *)
Definition fenced (i : nat) (src : string) : node :=
  Elem i "figure" [] []
    [Elem (i + 1) "pre" [] [("data-language", "mermaid")]
       [Elem (i + 2) "code" [] [] [Text src]]].

Definition body_of (ks : list node) : node := Elem 0 "body" [] [] ks.

Definition sample_page : world :=
  initial_world (Some "dark")
    (body_of [Elem 1 "p" [] [] [Text "Overview"]; fenced 2 "graph LR"]).

(** The libraries [X] with a pan/zoom initialiser that never throws. *)
Definition with_working_panzoom (X : externals) : externals :=
  Externals (innerText X) (render X) (run_rejects X) (getBBox_height X)
            (number_toString X) (fun _ => false).

(** The sample page once loaded and rendered by Mermaid, before the zoom
    controls are added; its one graphic has identity 6. *)
Definition sample_rendered : world :=
  fst (render_run static_externals (on_load static_externals sample_page)).

(** The timer of the load handler followed by the rest of the first render
    pass, with no other event in between. *)
Definition first_pass (X : externals) (w : world) : world :=
  let '(w1, rejected) := render_run X (on_load X w) in
  render_finish X w1 rejected.


(** A page without diagram blocks that carries a hand-written mount
    element. *)
Definition authored_page : world :=
  initial_world (Some "dark")
    (body_of [Elem 1 "div" ["mermaid"] [] [Text "graph TD"]]).

(* ------------------------------------------------------------------ *)
(** ** Pages whose mount elements are children of the body *)

(** All element identities of a list of trees. *)
Definition ids_forest (l : list node) : list nat := flat_map all_ids l.

Definition mermaid_free (n : node) : bool :=
  forallb (fun x => negb (sel_mermaid x)) (subtree n).

(** One container/hint pair put around a graphic by [addZoomControls]. *)
Record layer : Type := Layer {
  l_container : nat;
  l_hint : nat;
  l_height : string   (* the value of style.height *)
}.

(** A graphic inside its containers, the outermost first. *)
Fixpoint stack (g : node) (ls : list layer) : node :=
  match ls with
  | [] => g
  | l :: r =>
      container_node (l_container l) (l_height l)
                     [stack g r; hint_node (l_hint l)]
  end.

Definition svg_node (g : nat) (ga : list (string * string)) : node :=
  Elem g "svg" [] ga [].

(** What a mount element holds: text (its source, or what Mermaid shows for
    a diagram it cannot render), or a rendered graphic in its containers. *)
Inductive content : Type :=
| Raw (s : string)
| Drawn (g : nat) (ga : list (string * string)) (ls : list layer).

Definition kids_of_content (c : content) : list node :=
  match c with
  | Raw s => text_kids s
  | Drawn g ga ls => [stack (svg_node g ga) ls]
  end.

Record mount : Type := Mount {
  m_id : nat;
  m_attrs : list (string * string);
  m_content : content
}.

Definition mount_node (m : mount) : node :=
  Elem (m_id m) "div" ["mermaid"] (m_attrs m) (kids_of_content (m_content m)).

(** A child of the body: a mount element, or anything that holds no
    element of class [mermaid]. *)
Inductive slot : Type :=
| Inert (n : node)
| Mounted (m : mount).

Definition node_of_slot (s : slot) : node :=
  match s with Inert n => n | Mounted m => mount_node m end.

Definition inert_ok (s : slot) : bool :=
  match s with Inert n => mermaid_free n | Mounted _ => true end.

(** The document is a body (identity [b], attributes [ba]) whose children
    are [slots]; identities are unique and below the counter. *)
Definition shaped (b : nat) (ba : list (string * string)) (w : world)
  (slots : list slot) : Prop :=
  doc (page w) = Elem b "body" [] ba (map node_of_slot slots) /\
  NoDup (all_ids (doc (page w))) /\
  (forall i, In i (all_ids (doc (page w))) -> i < next_id w) /\
  forallb inert_ok slots = true.





Definition styled (ga : list (string * string)) : list (string * string) :=
  setAttribute (setAttribute ga "style.width" "100%") "style.height" "100%".

(** The zoom-control loop, seen on one child of the body. *)
Definition enhance_slot (X : externals) (s : slot) (n : nat) : slot * nat :=
  match s with
  | Mounted (Mount i a (Drawn g ga ls)) =>
      let h := height_px X (svg_node g ga) in
      (Mounted (Mount i a (Drawn g (styled ga) (ls ++ [Layer n (S n) h]))),
       S (S n))
  | _ => (s, n)
  end.

Fixpoint enhance_slots (X : externals) (l : list slot) (n : nat)
  : list slot * nat :=
  match l with
  | [] => ([], n)
  | s :: r =>
      let '(s', n1) := enhance_slot X s n in
      let '(r', n2) := enhance_slots X r n1 in
      (s' :: r', n2)
  end.


Definition body_node (b : nat) (ba : list (string * string))
  (slots : list slot) : node :=
  Elem b "body" [] ba (map node_of_slot slots).


Definition layer_ids (ls : list layer) : list nat :=
  flat_map (fun l => [l_container l; l_hint l]) ls.

Definition svg_ids (slots : list slot) : list nat :=
  flat_map (fun s => match s with
                     | Mounted (Mount _ _ (Drawn g _ _)) => [g]
                     | _ => []
                     end) slots.

(** The tree surgery of one [addZoomControls] call, in the order of the
    script: [insertBefore], two [appendChild]s (each first detaches the node
    it moves) and the two style assignments on the graphic. *)
Definition wrap_tree (g : nat) (gnode : node) (cid hid : nat) (h : string)
  (n : node) : node :=
  update_node g (set_attr "style.height" "100%")
    (update_node g (set_attr "style.width" "100%")
       (update_node cid (append_kid (hint_node hid))
          (remove_node hid
             (update_node cid (append_kid gnode)
                (remove_node g
                   (insert_before g (container_node cid h [])
                      (remove_node cid n))))))).

(** The graphics that get a pan/zoom instance in the zoom-control loop, and
    what the loop writes to the console. *)
Definition zoomed (X : externals) (slots : list slot) : list nat :=
  flat_map (fun s => match s with
                     | Mounted (Mount _ _ (Drawn g ga _)) =>
                         if svgPanZoom_throws X (svg_node g (styled ga))
                         then [] else [g]
                     | _ => []
                     end) slots.

Definition zoom_logs (X : externals) (slots : list slot) : list log_entry :=
  flat_map (fun s => match s with
                     | Mounted (Mount _ _ (Drawn g ga _)) =>
                         [if svgPanZoom_throws X (svg_node g (styled ga))
                          then LogError "[Mermaid] Failed to enable zoom:"
                          else Log "[Mermaid] Zoom enabled for diagram"]
                     | _ => []
                     end) slots.



(** The viewport containers below mount elements: the result of
    [document.querySelectorAll('.mermaid .mermaid-container')]. *)
Definition enhancements (w : world) : list nat :=
  querySelectorAll_desc sel_mermaid sel_container (doc (page w)).

Definition containers_of_slot (s : slot) : list nat :=
  match s with
  | Mounted (Mount _ _ (Drawn _ _ ls)) => map l_container ls
  | _ => []
  end.




(* ------------------------------------------------------------------ *)
(** ** Pages as the site generator emits them *)

(** A child of the body before conversion: any markup without diagram
    blocks and mount elements, a diagram block inside its [figure], a bare
    diagram block, or a [pre] tagged as a diagram that has no [code]
    element below it (alone or inside a [figure]). *)
Inductive item : Type :=
| Plain (n : node)
| Fenced (f p c : nat) (ck : list node)
| Bare (p c : nat) (ck : list node)
| Codeless (f : option nat) (p : nat) (pk : list node).

Definition code_node (c : nat) (ck : list node) : node :=
  Elem c "code" [] [] ck.

Definition pre_node (p : nat) (ks : list node) : node :=
  Elem p "pre" [] [("data-language", "mermaid")] ks.

Definition figure_node (f : nat) (k : node) : node :=
  Elem f "figure" [] [] [k].

Definition node_of_item (it : item) : node :=
  match it with
  | Plain n => n
  | Fenced f p c ck => figure_node f (pre_node p [code_node c ck])
  | Bare p c ck => pre_node p [code_node c ck]
  | Codeless None p pk => pre_node p pk
  | Codeless (Some f) p pk => figure_node f (pre_node p pk)
  end.






(** [code.innerText || code.textContent]. *)
Definition code_content (X : externals) (code : node) : string :=
  if String.eqb (innerText X code) "" then textContent code
  else innerText X code.



Definition item_slot (it : item) : slot := Inert (node_of_item it).

(** The page made of [items], as the browser hands it to the script. *)
Definition page_of (th : option string) (b : nat)
  (ba : list (string * string)) (items : list item) : world :=
  initial_world th (body_node b ba (map item_slot items)).




(** A page whose first diagram-tagged [pre] has no [code] element; the
    second block is a regular one. *)
Definition misaligned_page : world :=
  page_of (Some "dark") 0 []
          [Codeless None 1 []; Fenced 2 3 4 [Text "graph LR"]].

(** Does the [data-block-index] of a mount element find an entry of
    [window.mermaidSources]? *)
Definition index_resolves (w : world) (mermaidDiv : node) : bool :=
  match array_get (mermaidSources w)
                  (parseInt (attr_of mermaidDiv "data-block-index")) with
  | Some _ => true
  | None => false
  end.

Definition mounts (w : world) : list node :=
  filter sel_mermaid (subtree (doc (page w))).











(* ------------------------------------------------------------------ *)
(** ** The observer callback on a batch of mutation records *)

(** What the callback reads of a [MutationRecord]: [attributeName], which
    is [null] for a record that is not about an attribute. *)
Record mutation : Type := Mutation { attributeName : option string }.

Definition is_theme_record (m : mutation) : bool :=
  match attributeName m with
  | Some a => String.eqb a "data-theme"
  | None => false
  end.

(** The callback given to [new MutationObserver]: [mutations.forEach] with
    the test on [attributeName]. *)
Definition observer_callback (w : world) (mutations : list mutation) : world :=
  fold_left (fun w m => if is_theme_record m then on_theme_mutation w else w)
            mutations w.

(* ------------------------------------------------------------------ *)
(** ** Elements anywhere in the document *)

(** An element seen from one of its children: its identity, tag, classes
    and attributes, and the children to the left and to the right of that
    child. *)
Record frame : Type := Frame {
  f_id : nat;
  f_tag : string;
  f_classes : list string;
  f_attrs : list (string * string);
  f_left : list node;
  f_right : list node
}.

Definition fill (f : frame) (n : node) : node :=
  Elem (f_id f) (f_tag f) (f_classes f) (f_attrs f)
       (f_left f ++ n :: f_right f).

(** The tree that has [n] at the end of the path [ctx], the outermost
    element first. *)
Fixpoint plug (ctx : list frame) (n : node) : node :=
  match ctx with
  | [] => n
  | f :: r => fill f (plug r n)
  end.

(* ------------------------------------------------------------------ *)
(** ** What the first pass draws *)


(* ------------------------------------------------------------------ *)
(** ** More sample pages and libraries *)




(** A rendered page as Mermaid leaves it in practice: the graphic has
    children of its own and a sibling before it. *)
Definition deep_page : world :=
  initial_world (Some "light")
    (body_of
       [Elem 1 "main" [] []
          [Elem 2 "div" ["mermaid"] [("data-processed", "true")]
             [Elem 3 "style" [] [] [];
              Elem 4 "svg" [] [("id", "mermaid-0")]
                   [Elem 5 "g" [] [] [Text "A"]]]]]).

(** A diagram block as the code-block renderer of the site emits it: the
    [figure] holds a caption before the [pre] and a copy button after it,
    and sits inside a wrapper [div]. *)
Definition framed_page : world :=
  initial_world (Some "dark")
    (body_of
       [Elem 1 "div" ["expressive-code"] []
          [Elem 2 "figure" ["frame"] []
             [Elem 3 "figcaption" ["header"] [] [];
              Elem 4 "pre" [] [("data-language", "mermaid")]
                   [Elem 5 "code" [] [] [Text "graph LR"]];
              Elem 6 "div" ["copy"] [] [Elem 7 "button" [] [] []]]]]).



(* ------------------------------------------------------------------ *)
(** * Properties *)

Example parseInt_index : parseInt (Some (string_of_nat 12)) = Some 12%Z.
Proof. reflexivity. Qed.

Example parseInt_absent : parseInt None = None.
Proof. reflexivity. Qed.

Example parseInt_hex : parseInt (Some " 0x1f") = Some 31%Z.
Proof. reflexivity. Qed.

Lemma set_textContent_children d i s :
  set_textContent d i s = set_children d i (text_kids s).
Proof. reflexivity. Qed.

(* ------------------------------------------------------------------ *)
(** ** What each part of the script leaves alone *)

Lemma forEach_preserves {A : Type} (g : world -> A) l f w :
  (forall w x i, g (f w x i) = g w) -> g (forEach l f w) = g w.
Proof.
  intros H. unfold forEach.
  generalize (combine l (seq 0 (List.length l))). intros p.
  revert w. induction p as [|[x i] p IH]; intros w; simpl; [reflexivity|].
  rewrite IH. apply H.
Qed.

Lemma fold_left_preserves {A B : Type} (g : world -> A)
      (f : world -> B -> world) l w :
  (forall w x, g (f w x) = g w) -> g (fold_left f l w) = g w.
Proof.
  intros H. revert w. induction l as [|x l IH]; intros w; simpl; [reflexivity|].
  rewrite IH. apply H.
Qed.

Lemma unwrap_container_outside w c i :
  outside (unwrap_container w c i) = outside w.
Proof.
  unfold unwrap_container.
  destruct (dom_get (page w) c); [|reflexivity].
  destruct (querySelector sel_mermaid n) as [[|]|]; try reflexivity.
  destruct (dom_get _ _); reflexivity.
Qed.

Lemma reset_mount_outside w m i :
  outside (reset_mount w m i) = outside w.
Proof.
  unfold reset_mount.
  destruct (dom_get (page w) m); [|reflexivity].
  destruct (parseInt _); [|reflexivity].
  destruct (truthy _); reflexivity.
Qed.

Lemma teardown_outside w : outside (teardown w) = outside w.
Proof.
  unfold teardown.
  rewrite (forEach_preserves outside) by apply reset_mount_outside.
  apply (forEach_preserves outside), unwrap_container_outside.
Qed.

Lemma teardown_next_id w : next_id (teardown w) = next_id w.
Proof.
  unfold teardown.
  rewrite (forEach_preserves next_id).
  - apply (forEach_preserves next_id). intros w' c i.
    unfold unwrap_container.
    destruct (dom_get (page w') c); [|reflexivity].
    destruct (querySelector sel_mermaid n) as [[|]|]; try reflexivity.
    destruct (dom_get _ _); reflexivity.
  - intros w' m i. unfold reset_mount.
    destruct (dom_get (page w') m); [|reflexivity].
    destruct (parseInt _); [|reflexivity].
    destruct (truthy _); reflexivity.
Qed.

Lemma getCurrentTheme_outside w w' :
  outside w' = outside w -> getCurrentTheme w' = getCurrentTheme w.
Proof. unfold outside, getCurrentTheme. intros H. now inversion H. Qed.

Lemma run_node_outside X w i : outside (run_node X w i) = outside w.
Proof.
  unfold run_node.
  destruct (dom_get (page w) i); [|reflexivity].
  destruct (truthy _); [reflexivity|].
  destruct (render X _ _); reflexivity.
Qed.

Lemma render_begin_calls w :
  calls (render_begin w) =
  calls w ++ [Initialize (Config false (getCurrentTheme w) "error")].
Proof.
  unfold render_begin. cbn [call_engine calls].
  set (w1 := log w _).
  assert (H : outside (teardown w1) = outside w1) by apply teardown_outside.
  rewrite (getCurrentTheme_outside H).
  unfold outside in H. inversion H. reflexivity.
Qed.

Lemma render_begin_engine w :
  engine (render_begin w) = Some (Config false (getCurrentTheme w) "error").
Proof.
  unfold render_begin. cbn [call_engine engine].
  set (w1 := log w _).
  now rewrite (getCurrentTheme_outside (teardown_outside w1)).
Qed.

Lemma mermaid_run_outside X w nodes :
  let w' := fst (mermaid_run X w nodes) in
  data_theme w' = data_theme w /\ mermaidSources w' = mermaidSources w /\
  console w' = console w /\ engine w' = engine w /\
  calls w' = calls w ++ [Run nodes] /\ panzoom w' = panzoom w /\
  observing w' = observing w.
Proof.
  unfold mermaid_run. cbn [fst].
  pose proof (@fold_left_preserves _ _ outside (run_node X) nodes
                (call_engine w (Run nodes)) (run_node_outside X)) as H.
  unfold outside in H. cbn in H. inversion H. repeat split; assumption.
Qed.

Lemma render_run_calls X w :
  calls (fst (render_run X w)) =
  calls w ++ [Run (querySelectorAll sel_mermaid (doc (page w)))].
Proof.
  unfold render_run.
  destruct (mermaid_run_outside X (log w (Log "[Mermaid] Rendering diagrams"))
              (querySelectorAll sel_mermaid (doc (page w))))
    as (_ & _ & _ & _ & H & _).
  exact H.
Qed.

Lemma render_run_engine X w : engine (fst (render_run X w)) = engine w.
Proof.
  unfold render_run.
  destruct (mermaid_run_outside X (log w (Log "[Mermaid] Rendering diagrams"))
              (querySelectorAll sel_mermaid (doc (page w))))
    as (_ & _ & _ & H & _).
  exact H.
Qed.

Lemma addZoomControls_calls X w svg i :
  calls (state_of (addZoomControls X w svg i)) = calls w /\
  engine (state_of (addZoomControls X w svg i)) = engine w /\
  observing (state_of (addZoomControls X w svg i)) = observing w.
Proof.
  unfold addZoomControls.
  destruct (dom_get (page w) svg); [|now cbn].
  cbn [with_next page].
  destruct (parentNode (page w) svg); [|now cbn].
  destruct (svgPanZoom_throws X (styled_svg n)); now cbn.
Qed.

Lemma forEach_try_preserves {A : Type} (g : world -> A) f l w :
  (forall w x i, g (state_of (f w x i)) = g w) ->
  g (state_of (forEach_try l f w)) = g w.
Proof.
  intros H. revert w. induction l as [|[x i] l IH]; intros w; cbn; [reflexivity|].
  specialize (H w x i). destruct (f w x i) as [w'|w']; cbn in *.
  - now rewrite IH.
  - exact H.
Qed.

Lemma render_finish_calls X w r :
  calls (render_finish X w r) = calls w /\
  engine (render_finish X w r) = engine w /\
  observing (render_finish X w r) = observing w.
Proof.
  unfold render_finish. destruct r; [now cbn|].
  set (w1 := log w _).
  set (l := indexed _).
  pose proof (@forEach_try_preserves _
                (fun w => (calls w, engine w, observing w))
                (addZoomControls X) l w1) as H.
  cbn beta in H.
  assert (H' : (calls (state_of (forEach_try l (addZoomControls X) w1)),
                engine (state_of (forEach_try l (addZoomControls X) w1)),
                observing (state_of (forEach_try l (addZoomControls X) w1)))
               = (calls w1, engine w1, observing w1)).
  { apply H. intros w' x i.
    destruct (addZoomControls_calls X w' x i) as (-> & -> & ->). reflexivity. }
  destruct (forEach_try l (addZoomControls X) w1); cbn in *;
    inversion H'; now repeat split.
Qed.

(** C6: the palette is "neutral" (the light one) exactly for
    [data-theme="light"] and "dark" for every other value, an absent
    attribute included; and every render pass first calls
    [mermaid.initialize] with that palette and [logLevel: 'error'], then
    makes its one batch call, which runs under that configuration. *)
Theorem C6_palette_configured_before_batch X w :
  (getCurrentTheme w = "neutral" <-> data_theme w = Some "light") /\
  (getCurrentTheme w = "dark" <-> data_theme w <> Some "light") /\
  let cfg := Config false (getCurrentTheme w) "error" in
  engine (fst (render_run X (render_begin w))) = Some cfg /\
  exists nodes,
    calls (renderMermaidDiagrams X w) = calls w ++ [Initialize cfg; Run nodes].
Proof.
  split; [|split].
  - unfold getCurrentTheme. destruct (data_theme w) as [t|].
    + destruct (String.eqb_spec t "light") as [->|Hne].
      * split; reflexivity.
      * split; [discriminate|]. intros H. inversion H. contradiction.
    + split; discriminate.
  - unfold getCurrentTheme. destruct (data_theme w) as [t|].
    + destruct (String.eqb_spec t "light") as [->|Hne].
      * split; [discriminate|]. intros H. now contradiction H.
      * split; [|reflexivity]. intros _ H. inversion H. contradiction.
    + split; [discriminate|reflexivity].
  - cbn zeta. split.
    + rewrite render_run_engine. apply render_begin_engine.
    + exists (querySelectorAll sel_mermaid (doc (page (render_begin w)))).
      unfold renderMermaidDiagrams.
      pose proof (render_run_calls X (render_begin w)) as Hc.
      destruct (render_run X (render_begin w)) as [w1 r]. cbn [fst] in Hc.
      destruct (render_finish_calls X w1 r) as (-> & _).
      rewrite Hc, render_begin_calls, <- app_assoc. reflexivity.
Qed.

Lemma render_begin_observing w : observing (render_begin w) = observing w.
Proof.
  unfold render_begin. cbn [call_engine observing].
  pose proof (teardown_outside (log w (Log "[Mermaid] Rendering diagrams with theme:"))) as H.
  unfold outside in H. now inversion H.
Qed.

Lemma render_run_observing X w :
  observing (fst (render_run X w)) = observing w.
Proof.
  unfold render_run.
  destruct (mermaid_run_outside X (log w (Log "[Mermaid] Rendering diagrams"))
              (querySelectorAll sel_mermaid (doc (page w))))
    as (_ & _ & _ & _ & _ & _ & H).
  exact H.
Qed.



Lemma on_load_observing X w : observing (on_load X w) = true.
Proof. reflexivity. Qed.

Lemma in_flight_theme_changes X s vs :
  observing (now s) = true ->
  in_flight (run_events X (map ThemeChange vs) s) = in_flight s + List.length vs /\
  observing (now (run_events X (map ThemeChange vs) s)) = true.
Proof.
  revert s. induction vs as [|v vs IH]; intros s Hobs.
  - cbn. split; [lia|exact Hobs].
  - cbn [map run_events fold_left].
    assert (Hs : step X s (ThemeChange v) =
                 Session (on_theme_mutation (set_data_theme (now s) v))
                         (inflight s ++ [Delaying])).
    { cbn. now rewrite Hobs. }
    rewrite Hs.
    destruct (IH (Session (on_theme_mutation (set_data_theme (now s) v))
                          (inflight s ++ [Delaying]))) as [H1 H2].
    { cbn [now]. unfold on_theme_mutation. rewrite render_begin_observing.
      cbn. exact Hobs. }
    unfold run_events in *. rewrite H1. split; [|exact H2].
    unfold in_flight. cbn [inflight]. rewrite length_app. cbn. lia.
Qed.

(** C1 as the script has it: nothing holds an invocation back.  The load
    handler and every theme mutation observed after it start a new
    invocation at once, so after the load and [n] theme changes that arrive
    before any timer fires, [n + 1] invocations are suspended together. *)
Theorem C1_invocations_overlap X w vs :
  in_flight (run_events X (Load :: map ThemeChange vs) (Session w [])) =
  S (List.length vs).
Proof.
  cbn [run_events fold_left step now inflight app].
  destruct (in_flight_theme_changes X (Session (on_load X w) [Delaying]) vs)
    as [H _]; [reflexivity|].
  unfold run_events in H. rewrite H. reflexivity.
Qed.

(** C1 fails as stated: a theme change right after the load leaves two
    invocations in flight. *)
Lemma C1_counterexample : ~ serialized sample_externals (Session sample_page []).
Proof.
  intros H. specialize (H [Load; ThemeChange (Some "light")]).
  vm_compute in H. lia.
Qed.

(** The DOM work of [addZoomControls] does not depend on whether
    [svgPanZoom] throws. *)
Lemma addZoomControls_page_independent X w1 w2 svg i :
  page w1 = page w2 -> next_id w1 = next_id w2 ->
  match addZoomControls X w1 svg i,
        addZoomControls (with_working_panzoom X) w2 svg i with
  | Normal a, Normal b | Thrown a, Thrown b =>
      page a = page b /\ next_id a = next_id b
  | _, _ => False
  end.
Proof.
  intros Hp Hn. unfold addZoomControls. rewrite Hp, Hn.
  destruct (dom_get (page w2) svg) as [g|]; [|now split].
  cbn [with_next page next_id]. rewrite Hp.
  destruct (parentNode (page w2) svg); [|now split].
  cbn [with_working_panzoom svgPanZoom_throws getBBox_height].
  destruct (svgPanZoom_throws X (styled_svg g)); now split.
Qed.

Lemma zoom_loop_page_independent X l w1 w2 :
  page w1 = page w2 -> next_id w1 = next_id w2 ->
  page (state_of (forEach_try l (addZoomControls X) w1)) =
  page (state_of (forEach_try l (addZoomControls (with_working_panzoom X)) w2)).
Proof.
  revert w1 w2. induction l as [|[x i] l IH]; intros w1 w2 Hp Hn; cbn.
  - exact Hp.
  - pose proof (addZoomControls_page_independent X w1 w2 x i Hp Hn) as H.
    destruct (addZoomControls X w1 x i) as [a|a],
             (addZoomControls (with_working_panzoom X) w2 x i) as [b|b];
      try contradiction; destruct H as [H1 H2].
    + now apply IH.
    + exact H1.
Qed.


(* ------------------------------------------------------------------ *)
(** ** Trees *)

Lemma node_induction (P : node -> Prop) :
  (forall s, P (Text s)) ->
  (forall i t c a ks, Forall P ks -> P (Elem i t c a ks)) ->
  forall n, P n.
Proof.
  intros HT HE. fix IH 1. intros [s|i t c a ks].
  - apply HT.
  - apply HE. induction ks as [|k ks IHks]; constructor.
    + apply IH.
    + exact IHks.
Qed.

Lemma in_descendants_trans n r :
  In n (descendants r) -> incl (descendants n) (descendants r).
Proof.
  revert n. induction r as [s|i t c a ks IH] using node_induction;
    intros n Hn; cbn in *; [contradiction|].
  apply in_flat_map in Hn. destruct Hn as (k & Hk & Hn).
  rewrite Forall_forall in IH.
  intros x Hx. apply in_flat_map. exists k. split; [exact Hk|].
  destruct Hn as [<-|Hn].
  - now right.
  - right. now apply (IH k Hk n).
Qed.

Lemma in_subtree_descendants n r :
  In n (subtree r) -> incl (descendants n) (subtree r).
Proof.
  intros [<-|Hn] x Hx.
  - now right.
  - right. now apply (in_descendants_trans _ _ Hn).
Qed.

Lemma find_none_iff {A} (f : A -> bool) l :
  find f l = None <-> forall x, In x l -> f x = false.
Proof.
  split.
  - intros H x Hx. now apply (find_none f l H).
  - induction l as [|y l IH]; intros H; cbn; [reflexivity|].
    rewrite (H y (or_introl eq_refl)). apply IH. intros x Hx. apply H. now right.
Qed.


Lemma ids_of_app l1 l2 : ids_of (l1 ++ l2) = ids_of l1 ++ ids_of l2.
Proof. unfold ids_of. apply flat_map_app. Qed.

(** A selector that only matches elements matches nothing exactly when the
    node list of [querySelectorAll] is empty. *)
Lemma ids_of_filter_nil (sel : node -> bool) l :
  (forall s, sel (Text s) = false) ->
  ids_of (filter sel l) = [] -> forall x, In x l -> sel x = false.
Proof.
  intros Hs. induction l as [|y l IH]; cbn; [intros _ x []|].
  destruct (sel y) eqn:E.
  - destruct y; [now rewrite Hs in E|]. cbn. discriminate.
  - intros H x [<-|Hx]; [exact E|now apply IH].
Qed.

Lemma flat_map_nil {A B} (f : A -> list B) l :
  (forall x, In x l -> f x = []) -> flat_map f l = [].
Proof.
  induction l as [|y l IH]; intros H; cbn; [reflexivity|].
  rewrite (H y (or_introl eq_refl)), IH; [reflexivity|].
  intros x Hx. apply H. now right.
Qed.

Lemma in_kid_subtree x k i t c a ks :
  In k ks -> In x (subtree k) -> In x (descendants (Elem i t c a ks)).
Proof.
  intros Hk Hx. cbn. apply in_flat_map. exists k. split; assumption.
Qed.

Lemma select_below_nil anc sel n :
  (forall x, In x (subtree n) -> anc x = false) ->
  select_below anc sel false n = [].
Proof.
  induction n as [s|i t c a ks IH] using node_induction; intros H;
    [reflexivity|].
  cbn [select_below andb app].
  rewrite (H _ (or_introl eq_refl)). cbn [orb].
  rewrite Forall_forall in IH.
  apply flat_map_nil. intros k Hk. apply IH; [exact Hk|].
  intros x Hx. apply H. right. eapply in_kid_subtree; eassumption.
Qed.

Lemma forEach_nil {S} (f : S -> nat -> nat -> S) s : forEach [] f s = s.
Proof. reflexivity. Qed.

Lemma forEach_fixed {S} (f : S -> nat -> nat -> S) l s :
  (forall x i, f s x i = s) -> forEach l f s = s.
Proof.
  intros H. unfold forEach. generalize (combine l (seq 0 (List.length l))).
  intros p. induction p as [|[x i] p IH]; cbn; [reflexivity|].
  now rewrite H.
Qed.

Lemma sel_mermaid_text s : sel_mermaid (Text s) = false.
Proof. reflexivity. Qed.

Lemma dom_get_in_doc body c cn :
  dom_get (Dom body []) c = Some cn -> In cn (subtree body).
Proof.
  unfold dom_get, trees. cbn [doc orphans flat_map]. rewrite app_nil_r.
  intros H. now apply find_some in H.
Qed.

(** Without any [.mermaid] element in the document the teardown changes
    nothing. *)
Lemma teardown_without_mounts w :
  orphans (page w) = [] ->
  querySelectorAll sel_mermaid (doc (page w)) = [] ->
  teardown w = w.
Proof.
  intros Ho Hm. unfold teardown.
  assert (Hno : forall x, In x (subtree (doc (page w))) -> sel_mermaid x = false).
  { apply ids_of_filter_nil; [apply sel_mermaid_text|exact Hm]. }
  cbv zeta. rewrite (forEach_fixed unwrap_container).
  - rewrite Hm. apply forEach_nil.
  - intros c i. unfold unwrap_container.
    destruct (dom_get (page w) c) as [cn|] eqn:E; [|reflexivity].
    destruct (page w) as [body orph]. cbn in Ho, Hno. subst orph.
    apply dom_get_in_doc in E.
    assert (Hq : querySelector sel_mermaid cn = None).
    { apply find_none_iff. intros x Hx. apply Hno.
      now apply (in_subtree_descendants E). }
    now rewrite Hq.
Qed.

(** C8, as the script has it: on a page with no diagram block and no element
    of class [mermaid], the load handler records no source; the render pass it
    still starts configures Mermaid and makes a batch call over no element,
    adds no zoom control, and leaves the DOM as it was. *)
Theorem C8_page_without_diagrams X th body :
  querySelectorAll sel_mermaid_pre body = [] ->
  querySelectorAll sel_mermaid body = [] ->
  let w0 := initial_world th body in
  let w := first_pass X w0 in
  mermaidSources w = [] /\
  page w = page w0 /\
  next_id w = next_id w0 /\
  panzoom w = [] /\
  calls w = [Initialize (Config false (getCurrentTheme w0) "error"); Run []].
Proof.
  intros Hpre Hm. cbv zeta.
  unfold first_pass, on_load, convert, initial_world.
  cbn [log page doc]. rewrite Hpre, forEach_nil.
  unfold render_begin. rewrite teardown_without_mounts.
  2: reflexivity. 2: exact Hm.
  unfold render_run. cbn [log call_engine observe page doc]. rewrite Hm.
  unfold mermaid_run. cbn [fold_left call_engine engine theme].
  destruct (run_rejects X _ _).
  - cbn. repeat split.
  - unfold render_finish. cbn [log page doc].
    unfold querySelectorAll_desc. rewrite select_below_nil.
    + cbn. repeat split.
    + apply ids_of_filter_nil; [apply sel_mermaid_text|exact Hm].
Qed.

(** The hypotheses of C8 are met by a page of plain prose. *)
Lemma C8_witness :
  page (first_pass sample_externals
          (initial_world None (body_of [Elem 1 "p" [] [] [Text "No diagram"]])))
  = Dom (body_of [Elem 1 "p" [] [] [Text "No diagram"]]) [].
Proof.
  apply (C8_page_without_diagrams sample_externals None
           (body_of [Elem 1 "p" [] [] [Text "No diagram"]])); reflexivity.
Defined.

(** C8 fails as stated: a page with no diagram block but a hand-written
    [div.mermaid] is rendered and wrapped all the same. *)
Lemma C8_counterexample :
  querySelectorAll sel_mermaid_pre (doc (page authored_page)) = [] /\
  mermaidSources (first_pass sample_externals authored_page) = [] /\
  page (first_pass sample_externals authored_page) <> page authored_page /\
  panzoom (first_pass sample_externals authored_page) = [2].
Proof.
  split; [reflexivity|]. split; [reflexivity|]. split; [|reflexivity].
  vm_compute. discriminate.
Qed.

(* ------------------------------------------------------------------ *)
(** ** Surgery leaves alone the subtrees that do not hold the target *)

Lemma all_ids_elem i t c a ks :
  all_ids (Elem i t c a ks) = i :: flat_map all_ids ks.
Proof.
  unfold all_ids, subtree. cbn [descendants ids_of flat_map node_id app].
  f_equal. induction ks as [|k ks IH]; [reflexivity|].
  cbn [flat_map]. fold (ids_of (descendants k)) in *.
  change (flat_map (fun n => match node_id n with Some i => [i] | None => [] end))
    with ids_of in *.
  rewrite ids_of_app. f_equal. exact IH.
Qed.

Lemma absent_elem i j t c a ks :
  ~ In i (all_ids (Elem j t c a ks)) ->
  j <> i /\ forall k, In k ks -> ~ In i (all_ids k).
Proof.
  rewrite all_ids_elem. intros H. split.
  - intros ->. apply H. now left.
  - intros k Hk Hi. apply H. right. apply in_flat_map. now exists k.
Qed.

Lemma map_fixed {A} (f : A -> A) l :
  (forall x, In x l -> f x = x) -> map f l = l.
Proof.
  induction l as [|y l IH]; intros H; cbn; [reflexivity|].
  rewrite H by now left. f_equal. apply IH. intros x Hx. apply H. now right.
Qed.

Lemma flat_map_fixed {A} (f : A -> list A) l :
  (forall x, In x l -> f x = [x]) -> flat_map f l = l.
Proof.
  induction l as [|y l IH]; intros H; cbn; [reflexivity|].
  rewrite H by now left. cbn. f_equal. apply IH. intros x Hx. apply H. now right.
Qed.

Lemma is_id_absent i k : ~ In i (all_ids k) -> is_id i k = false.
Proof.
  destruct k as [s|j t c a ks]; [reflexivity|].
  intros H. apply absent_elem in H. cbn. now apply Nat.eqb_neq.
Qed.

Lemma update_node_absent i f n :
  ~ In i (all_ids n) -> update_node i f n = n.
Proof.
  induction n as [s|j t c a ks IH] using node_induction; intros H;
    [reflexivity|].
  apply absent_elem in H. destruct H as [Hj Hk].
  cbn. apply Nat.eqb_neq in Hj. rewrite Hj. f_equal.
  rewrite Forall_forall in IH. apply map_fixed. intros k Hin.
  apply IH; auto.
Qed.

Lemma remove_node_absent i n :
  ~ In i (all_ids n) -> remove_node i n = n.
Proof.
  induction n as [s|j t c a ks IH] using node_induction; intros H;
    [reflexivity|].
  apply absent_elem in H. destruct H as [Hj Hk].
  cbn. f_equal. rewrite Forall_forall in IH.
  apply flat_map_fixed. intros k Hin.
  rewrite is_id_absent by auto. f_equal. apply IH; auto.
Qed.

Lemma replace_node_absent i new n :
  ~ In i (all_ids n) -> replace_node i new n = n.
Proof.
  induction n as [s|j t c a ks IH] using node_induction; intros H;
    [reflexivity|].
  apply absent_elem in H. destruct H as [Hj Hk].
  cbn. f_equal. rewrite Forall_forall in IH.
  apply map_fixed. intros k Hin.
  rewrite is_id_absent by auto. apply IH; auto.
Qed.

Lemma insert_before_absent i new n :
  ~ In i (all_ids n) -> insert_before i new n = n.
Proof.
  induction n as [s|j t c a ks IH] using node_induction; intros H;
    [reflexivity|].
  apply absent_elem in H. destruct H as [Hj Hk].
  cbn. f_equal. rewrite Forall_forall in IH.
  apply flat_map_fixed. intros k Hin.
  rewrite is_id_absent by auto. f_equal. apply IH; auto.
Qed.

Lemma path_to_absent i n : ~ In i (all_ids n) -> path_to i n = [].
Proof.
  induction n as [s|j t c a ks IH] using node_induction; intros H;
    [reflexivity|].
  apply absent_elem in H. destruct H as [Hj Hk].
  cbn. apply Nat.eqb_neq in Hj. rewrite Hj.
  rewrite Forall_forall in IH.
  assert (E : fold_right (fun k acc => match path_to i k with
                                       | [] => acc
                                       | p => p
                                       end) [] ks = []).
  { induction ks as [|k ks IHks]; [reflexivity|]. cbn.
    rewrite IH by (try apply Hk; now left).
    apply IHks; intros; [apply IH|apply Hk]; try now right. assumption. }
  now rewrite E.
Qed.

Lemma find_id_absent i l :
  ~ In i (ids_of l) -> find (is_id i) l = None.
Proof.
  induction l as [|n l IH]; intros H; [reflexivity|].
  cbn. destruct n as [s|j t c a ks]; cbn in *.
  - apply IH. exact H.
  - destruct (Nat.eqb_spec j i) as [->|Hne].
    + exfalso. apply H. now left.
    + apply IH. intros Hi. apply H. now right.
Qed.

Lemma find_app_none {A} (f : A -> bool) l1 l2 :
  find f l1 = None -> find f (l1 ++ l2) = find f l2.
Proof.
  induction l1 as [|x l1 IH]; cbn; [reflexivity|].
  destruct (f x); [discriminate|exact IH].
Qed.

Lemma find_app_some {A} (f : A -> bool) l1 l2 x :
  find f l1 = Some x -> find f (l1 ++ l2) = Some x.
Proof.
  induction l1 as [|y l1 IH]; cbn; [discriminate|].
  destruct (f y); [trivial|exact IH].
Qed.

(* ------------------------------------------------------------------ *)
(** ** Surgery below one child *)

Lemma ids_forest_app l1 l2 :
  ids_forest (l1 ++ l2) = ids_forest l1 ++ ids_forest l2.
Proof. apply flat_map_app. Qed.

Lemma absent_forest i l k :
  ~ In i (ids_forest l) -> In k l -> ~ In i (all_ids k).
Proof.
  intros H Hk Hi. apply H. apply in_flat_map. now exists k.
Qed.

Lemma update_node_kid i f b t c a pre k post :
  b <> i -> ~ In i (ids_forest pre) -> ~ In i (ids_forest post) ->
  update_node i f (Elem b t c a (pre ++ k :: post)) =
  Elem b t c a (pre ++ update_node i f k :: post).
Proof.
  intros Hb Hpre Hpost. cbn. apply Nat.eqb_neq in Hb. rewrite Hb. f_equal.
  rewrite map_app. cbn [map]. f_equal; [|f_equal].
  - apply map_fixed. intros x Hx. apply update_node_absent.
    exact (@absent_forest _ _ _ Hpre Hx).
  - apply map_fixed. intros x Hx. apply update_node_absent.
    exact (@absent_forest _ _ _ Hpost Hx).
Qed.

Lemma remove_node_kid i b t c a pre k post :
  ~ In i (ids_forest pre) -> ~ In i (ids_forest post) -> is_id i k = false ->
  remove_node i (Elem b t c a (pre ++ k :: post)) =
  Elem b t c a (pre ++ remove_node i k :: post).
Proof.
  intros Hpre Hpost Hk. cbn. f_equal.
  rewrite flat_map_app. cbn [flat_map]. rewrite Hk. cbn [app].
  f_equal; [|f_equal].
  - apply flat_map_fixed. intros x Hx.
    assert (Hx' : ~ In i (all_ids x)) by (exact (@absent_forest _ _ _ Hpre Hx)).
    now rewrite is_id_absent, remove_node_absent.
  - apply flat_map_fixed. intros x Hx.
    assert (Hx' : ~ In i (all_ids x)) by (exact (@absent_forest _ _ _ Hpost Hx)).
    now rewrite is_id_absent, remove_node_absent.
Qed.

Lemma insert_before_kid i new b t c a pre k post :
  ~ In i (ids_forest pre) -> ~ In i (ids_forest post) -> is_id i k = false ->
  insert_before i new (Elem b t c a (pre ++ k :: post)) =
  Elem b t c a (pre ++ insert_before i new k :: post).
Proof.
  intros Hpre Hpost Hk. cbn. f_equal.
  rewrite flat_map_app. cbn [flat_map]. rewrite Hk. cbn [app].
  f_equal; [|f_equal].
  - apply flat_map_fixed. intros x Hx.
    assert (Hx' : ~ In i (all_ids x)) by (exact (@absent_forest _ _ _ Hpre Hx)).
    now rewrite is_id_absent, insert_before_absent.
  - apply flat_map_fixed. intros x Hx.
    assert (Hx' : ~ In i (all_ids x)) by (exact (@absent_forest _ _ _ Hpost Hx)).
    now rewrite is_id_absent, insert_before_absent.
Qed.

Lemma replace_node_top i new b t c a pre k post :
  ~ In i (ids_forest pre) -> ~ In i (ids_forest post) -> is_id i k = true ->
  replace_node i new (Elem b t c a (pre ++ k :: post)) =
  Elem b t c a (pre ++ new :: post).
Proof.
  intros Hpre Hpost Hk. cbn. f_equal.
  rewrite map_app. cbn [map]. rewrite Hk.
  f_equal; [|f_equal].
  - apply map_fixed. intros x Hx.
    assert (Hx' : ~ In i (all_ids x)) by (exact (@absent_forest _ _ _ Hpre Hx)).
    now rewrite is_id_absent, replace_node_absent.
  - apply map_fixed. intros x Hx.
    assert (Hx' : ~ In i (all_ids x)) by (exact (@absent_forest _ _ _ Hpost Hx)).
    now rewrite is_id_absent, replace_node_absent.
Qed.

Lemma path_fold_kid i pre k post :
  ~ In i (ids_forest pre) -> path_to i k <> [] ->
  fold_right (fun k acc => match path_to i k with
                           | [] => acc
                           | p => p
                           end) [] (pre ++ k :: post) = path_to i k.
Proof.
  intros Hpre Hk. induction pre as [|x pre IH]; cbn.
  - destruct (path_to i k); [contradiction|reflexivity].
  - rewrite path_to_absent.
    + apply IH. intros Hi. apply Hpre. cbn. apply in_or_app. now right.
    + intros Hi. apply Hpre. cbn. apply in_or_app. now left.
Qed.

Lemma path_to_kid i b t c a pre k post :
  b <> i -> ~ In i (ids_forest pre) -> path_to i k <> [] ->
  path_to i (Elem b t c a (pre ++ k :: post)) =
  Elem b t c a (pre ++ k :: post) :: path_to i k.
Proof.
  intros Hb Hpre Hk. cbn. apply Nat.eqb_neq in Hb. rewrite Hb.
  rewrite path_fold_kid by assumption.
  destruct (path_to i k); [contradiction|reflexivity].
Qed.

Lemma ids_of_subtree_forest l :
  ids_of (flat_map subtree l) = ids_forest l.
Proof.
  induction l as [|x l IH]; [reflexivity|].
  cbn [flat_map]. rewrite ids_of_app, IH. reflexivity.
Qed.

Lemma descendants_flat ks :
  flat_map (fun k => k :: descendants k) ks = flat_map subtree ks.
Proof. reflexivity. Qed.

Lemma find_node_kid i b t c a pre k post x :
  b <> i -> ~ In i (ids_forest pre) -> find_node i k = Some x ->
  find_node i (Elem b t c a (pre ++ k :: post)) = Some x.
Proof.
  intros Hb Hpre Hk. unfold find_node, subtree in *.
  cbn [find is_id descendants]. apply Nat.eqb_neq in Hb. rewrite Hb.
  rewrite descendants_flat, flat_map_app. cbn [flat_map].
  rewrite find_app_none.
  - apply find_app_some. exact Hk.
  - apply find_id_absent. now rewrite ids_of_subtree_forest.
Qed.

Lemma dom_get_doc d i x :
  find_node i (doc d) = Some x -> dom_get d i = Some x.
Proof.
  intros H. unfold dom_get, trees. cbn [flat_map].
  now apply find_app_some.
Qed.

Lemma ancestors_doc d i :
  path_to i (doc d) <> [] -> ancestors_or_self d i = List.rev (path_to i (doc d)).
Proof.
  intros H. unfold ancestors_or_self, trees. cbn [fold_right].
  destruct (path_to i (doc d)); [contradiction|reflexivity].
Qed.

(* ------------------------------------------------------------------ *)
(** ** Identities in a body of slots *)

Lemma all_ids_body b ba slots :
  all_ids (body_node b ba slots) = b :: ids_forest (map node_of_slot slots).
Proof. unfold body_node. now rewrite all_ids_elem. Qed.

Lemma ids_split pre (s : slot) post :
  ids_forest (map node_of_slot (pre ++ s :: post)) =
  ids_forest (map node_of_slot pre) ++ all_ids (node_of_slot s)
    ++ ids_forest (map node_of_slot post).
Proof. rewrite map_app, ids_forest_app. reflexivity. Qed.

Lemma NoDup_app_parts {A} (l1 l2 : list A) :
  NoDup (l1 ++ l2) ->
  NoDup l1 /\ NoDup l2 /\ (forall x, In x l1 -> ~ In x l2).
Proof.
  induction l1 as [|a l1 IH]; cbn; intros H.
  - repeat split; [constructor|exact H|intros x []].
  - inversion H as [|? ? Hn Hd]; subst. destruct (IH Hd) as (H1 & H2 & H3).
    repeat split.
    + constructor; [|exact H1]. intros Hi. apply Hn. apply in_or_app. now left.
    + exact H2.
    + intros x [<-|Hx] Hx2.
      * apply Hn. apply in_or_app. now right.
      * now apply (H3 x).
Qed.

Lemma NoDup_app_build {A} (l1 l2 : list A) :
  NoDup l1 -> NoDup l2 -> (forall x, In x l1 -> ~ In x l2) -> NoDup (l1 ++ l2).
Proof.
  induction l1 as [|a l1 IH]; cbn; intros H1 H2 H3; [exact H2|].
  inversion H1; subst. constructor.
  - intros Hi. apply in_app_or in Hi. destruct Hi as [Hi|Hi]; [contradiction|].
    apply (H3 a); [now left|exact Hi].
  - apply IH; [assumption|assumption|]. intros x Hx. apply H3. now right.
Qed.

(** Replacing the identities [S] of one child by [S'], which are old
    identities of that child or fresh ones, keeps identities unique. *)
Lemma nodup_replace (b n : nat) (A S S' P : list nat) :
  NoDup (b :: A ++ S ++ P) ->
  (forall x, In x (b :: A ++ S ++ P) -> x < n) ->
  NoDup S' ->
  (forall x, In x S' -> In x S \/ n <= x) ->
  NoDup (b :: A ++ S' ++ P).
Proof.
  intros Hnd Hlt HS' Hin.
  inversion Hnd as [|? ? Hb Hrest]; subst.
  apply NoDup_app_parts in Hrest. destruct Hrest as (HA & HSP & HASP).
  apply NoDup_app_parts in HSP. destruct HSP as (HS & HP & HSP).
  assert (Hfresh : forall x, In x S' -> n <= x ->
                             ~ In x (b :: A ++ S ++ P)).
  { intros x _ Hge Hx. apply Hlt in Hx. lia. }
  constructor.
  - intros Hi. apply in_app_or in Hi. destruct Hi as [Hi|Hi].
    + apply Hb. apply in_or_app. now left.
    + apply in_app_or in Hi. destruct Hi as [Hi|Hi].
      * destruct (Hin _ Hi) as [Hs|Hge].
        -- apply Hb. apply in_or_app. right. apply in_or_app. now left.
        -- apply (Hfresh b Hi Hge). now left.
      * apply Hb. apply in_or_app. right. apply in_or_app. now right.
  - apply NoDup_app_build; [exact HA| |].
    + apply NoDup_app_build; [exact HS'|exact HP|].
      intros x Hx Hp. destruct (Hin _ Hx) as [Hs|Hge].
      * now apply (HSP x).
      * apply (Hfresh x Hx Hge). right. apply in_or_app. right.
        apply in_or_app. now right.
    + intros x Hx Hx'. apply in_app_or in Hx'. destruct Hx' as [Hx'|Hx'].
      * destruct (Hin _ Hx') as [Hs|Hge].
        -- apply (HASP x Hx). apply in_or_app. now left.
        -- apply (Hfresh x Hx' Hge). right. apply in_or_app. now left.
      * apply (HASP x Hx). apply in_or_app. now right.
Qed.

(** What uniqueness gives for the identities of one child. *)
Lemma nodup_child (b : nat) (A S P : list nat) i :
  NoDup (b :: A ++ S ++ P) -> In i S ->
  b <> i /\ ~ In i A /\ ~ In i P.
Proof.
  intros Hnd Hi. inversion Hnd as [|? ? Hb Hrest]; subst.
  apply NoDup_app_parts in Hrest. destruct Hrest as (HA & HSP & HASP).
  apply NoDup_app_parts in HSP. destruct HSP as (HS & HP & HSP).
  repeat split.
  - intros ->. apply Hb. apply in_or_app. right. apply in_or_app. now left.
  - intros Ha. apply (HASP i Ha). apply in_or_app. now left.
  - now apply HSP.
Qed.

(* ------------------------------------------------------------------ *)
(** ** Where the [.mermaid] elements of a body of slots are *)






Lemma mermaid_free_spec n x :
  mermaid_free n = true -> In x (subtree n) -> sel_mermaid x = false.
Proof.
  unfold mermaid_free. rewrite forallb_forall. intros H Hx.
  apply H in Hx. now apply negb_true_iff in Hx.
Qed.



Lemma ids_of_flat_map {A} (f : A -> list node) l :
  ids_of (flat_map f l) = flat_map (fun x => ids_of (f x)) l.
Proof.
  induction l as [|x l IH]; [reflexivity|].
  cbn [flat_map]. now rewrite ids_of_app, IH.
Qed.

Lemma flat_map_ext_in {A B} (f g : A -> list B) l :
  (forall x, In x l -> f x = g x) -> flat_map f l = flat_map g l.
Proof.
  induction l as [|x l IH]; intros H; [reflexivity|].
  cbn. rewrite H by now left. f_equal. apply IH. intros y Hy. apply H. now right.
Qed.








(* ------------------------------------------------------------------ *)
(** ** The invariant at one child *)

Unset Implicit Arguments.

Lemma shaped_ids_at b ba w pre s post i :
  shaped b ba w (pre ++ s :: post) -> In i (all_ids (node_of_slot s)) ->
  b <> i /\ ~ In i (ids_forest (map node_of_slot pre)) /\
  ~ In i (ids_forest (map node_of_slot post)).
Proof.
  intros (Hdoc & Hnd & _) Hi. rewrite Hdoc in Hnd.
  fold (body_node b ba (pre ++ s :: post)) in Hnd.
  rewrite all_ids_body, ids_split in Hnd.
  eapply nodup_child; [exact Hnd|exact Hi].
Qed.


Lemma shaped_update b ba w w' pre s s' post :
  shaped b ba w (pre ++ s :: post) ->
  doc (page w') = body_node b ba (pre ++ s' :: post) ->
  next_id w <= next_id w' ->
  NoDup (all_ids (node_of_slot s')) ->
  (forall x, In x (all_ids (node_of_slot s')) ->
             (In x (all_ids (node_of_slot s)) \/ next_id w <= x) /\
             x < next_id w') ->
  inert_ok s' = true ->
  shaped b ba w' (pre ++ s' :: post).
Proof.
  intros (Hdoc & Hnd & Hlt & Hok) Hdoc' Hn Hnd' Hids Hok'.
  rewrite Hdoc in Hnd, Hlt. fold (body_node b ba (pre ++ s :: post)) in Hnd, Hlt.
  rewrite all_ids_body, ids_split in Hnd, Hlt.
  unfold shaped. rewrite Hdoc'. rewrite all_ids_body, ids_split.
  split; [reflexivity|]. split; [|split].
  - eapply nodup_replace with (n := next_id w);
      [exact Hnd|exact Hlt|exact Hnd'|].
    intros x Hx. now apply Hids.
  - intros i [<-|Hi].
    + specialize (Hlt b (or_introl eq_refl)). lia.
    + apply in_app_or in Hi. destruct Hi as [Hi|Hi].
      * assert (i < next_id w); [|lia]. apply Hlt. right. apply in_or_app. now left.
      * apply in_app_or in Hi. destruct Hi as [Hi|Hi].
        -- now apply Hids.
        -- assert (i < next_id w); [|lia]. apply Hlt. right. apply in_or_app.
           right. apply in_or_app. now right.
  - rewrite forallb_app in *. cbn [forallb] in *.
    apply andb_true_iff in Hok. destruct Hok as [H1 H2].
    apply andb_true_iff in H2. destruct H2 as [_ H2].
    now rewrite H1, Hok', H2.
Qed.

Lemma update_top i f b t c a A k P :
  b <> i -> ~ In i (ids_forest A) -> ~ In i (ids_forest P) ->
  is_id i k = true ->
  update_node i f (Elem b t c a (A ++ k :: P)) = Elem b t c a (A ++ f k :: P).
Proof.
  intros Hb HA HP Hk. rewrite update_node_kid by assumption.
  destruct k as [s|j tj cj aj ks]; [discriminate|].
  cbn in Hk. cbn [update_node]. now rewrite Hk.
Qed.

Lemma find_top i b t c a A k P :
  b <> i -> ~ In i (ids_forest A) -> is_id i k = true ->
  find_node i (Elem b t c a (A ++ k :: P)) = Some k.
Proof.
  intros Hb HA Hk. apply find_node_kid; [assumption..|].
  unfold find_node, subtree. cbn [find]. now rewrite Hk.
Qed.



(* ------------------------------------------------------------------ *)
(** ** The teardown on a body of slots *)



Lemma doc_body_split b ba pre s post :
  body_node b ba (pre ++ s :: post) =
  Elem b "body" [] ba (map node_of_slot pre ++ node_of_slot s
                         :: map node_of_slot post).
Proof. unfold body_node. now rewrite map_app. Qed.





(* ------------------------------------------------------------------ *)
(** ** The batch call on a body of slots *)


Lemma in_doc_lt b ba w pre s post x :
  shaped b ba w (pre ++ s :: post) -> In x (all_ids (node_of_slot s)) ->
  x < next_id w.
Proof.
  intros (Hdoc & _ & Hlt & _) Hx. apply Hlt. rewrite Hdoc.
  fold (body_node b ba (pre ++ s :: post)).
  rewrite all_ids_body, ids_split. right. apply in_or_app. right.
  apply in_or_app. now left.
Qed.




(* ------------------------------------------------------------------ *)
(** ** Graphics in their containers *)

Lemma all_ids_stack_cons g ga l r :
  all_ids (stack (svg_node g ga) (l :: r)) =
  l_container l :: all_ids (stack (svg_node g ga) r) ++ [l_hint l].
Proof.
  cbn [stack]. unfold container_node. rewrite all_ids_elem.
  cbn [flat_map]. rewrite app_nil_r. reflexivity.
Qed.

Lemma stack_ids_perm g ga ls :
  Permutation (all_ids (stack (svg_node g ga) ls)) (g :: layer_ids ls).
Proof.
  induction ls as [|l r IH].
  - reflexivity.
  - rewrite all_ids_stack_cons. cbn [layer_ids flat_map app].
    change (flat_map _ r) with (layer_ids r).
    rewrite <- Permutation_cons_append, IH.
    apply perm_trans with (l_container l :: g :: l_hint l :: layer_ids r).
    + apply perm_skip, perm_swap.
    + apply perm_swap.
Qed.

Lemma layer_ids_app l1 l2 : layer_ids (l1 ++ l2) = layer_ids l1 ++ layer_ids l2.
Proof. apply flat_map_app. Qed.

Lemma select_stack g ga ls :
  select_below sel_mermaid sel_svg true (stack (svg_node g ga) ls) =
  [svg_node g ga].
Proof.
  induction ls as [|l r IH]; [reflexivity|].
  cbn [stack]. unfold container_node. cbn [select_below flat_map orb andb].
  rewrite IH. reflexivity.
Qed.

Lemma slot_svg_ids s :
  inert_ok s = true ->
  ids_of (select_below sel_mermaid sel_svg false (node_of_slot s)) =
  match s with
  | Mounted (Mount _ _ (Drawn g _ _)) => [g]
  | _ => []
  end.
Proof.
  intros Hs. destruct s as [n|[i a [s|g ga ls]]]; cbn [node_of_slot].
  - rewrite select_below_nil; [reflexivity|].
    intros x. apply (mermaid_free_spec Hs).
  - unfold mount_node. cbn [select_below m_content kids_of_content andb app].
    unfold text_kids. now destruct (String.eqb s "").
  - unfold mount_node.
    cbn [select_below m_content kids_of_content andb app flat_map orb
         sel_mermaid has_class existsb String.eqb Ascii.eqb Bool.eqb].
    rewrite select_stack. reflexivity.
Qed.

Lemma querySelectorAll_svg_body b ba slots :
  forallb inert_ok slots = true ->
  querySelectorAll_desc sel_mermaid sel_svg (body_node b ba slots) =
  svg_ids slots.
Proof.
  intros Hok. unfold querySelectorAll_desc, body_node.
  cbn [select_below andb app orb sel_mermaid has_class existsb].
  rewrite flat_map_concat_map, map_map, <- flat_map_concat_map.
  rewrite ids_of_flat_map. unfold svg_ids.
  apply flat_map_ext_in. intros s Hs. apply slot_svg_ids.
  rewrite forallb_forall in Hok. now apply Hok.
Qed.

Lemma find_stack g ga ls :
  ~ In g (layer_ids ls) ->
  find_node g (stack (svg_node g ga) ls) = Some (svg_node g ga).
Proof.
  induction ls as [|l r IH]; intros H.
  - unfold find_node. cbn. now rewrite Nat.eqb_refl.
  - cbn [stack]. unfold container_node.
    change [stack (svg_node g ga) r; hint_node (l_hint l)]
      with ([] ++ stack (svg_node g ga) r :: [hint_node (l_hint l)]).
    apply find_node_kid.
    + intros E. apply H. cbn. now left.
    + intros [].
    + apply IH. intros Hi. apply H. cbn. now right; right.
Qed.

Lemma path_stack_nonempty g ga ls :
  ~ In g (layer_ids ls) -> path_to g (stack (svg_node g ga) ls) <> [].
Proof.
  induction ls as [|l r IH]; intros H.
  - cbn. now rewrite Nat.eqb_refl.
  - cbn [stack]. unfold container_node.
    change [stack (svg_node g ga) r; hint_node (l_hint l)]
      with ([] ++ stack (svg_node g ga) r :: [hint_node (l_hint l)]).
    rewrite path_to_kid; [discriminate| |intros []|].
    + intros E. apply H. cbn. now left.
    + apply IH. intros Hi. apply H. cbn. now right; right.
Qed.

(* ------------------------------------------------------------------ *)
(** ** The surgery of [addZoomControls] *)

Lemma is_id_remove i j k : is_id i (remove_node j k) = is_id i k.
Proof. now destruct k. Qed.

Lemma is_id_insert i j new k : is_id i (insert_before j new k) = is_id i k.
Proof. now destruct k. Qed.

Lemma is_id_update i j f k :
  is_id j k = false -> is_id i (update_node j f k) = is_id i k.
Proof.
  destruct k as [s|r t c a ks]; [reflexivity|]. cbn. intros H. now rewrite H.
Qed.

Lemma insert_before_here i new b t c a A k P :
  ~ In i (ids_forest A) -> ~ In i (ids_forest P) -> is_id i k = true ->
  insert_before i new (Elem b t c a (A ++ k :: P)) =
  Elem b t c a (A ++ new :: k :: P).
Proof.
  intros HA HP Hk. cbn. f_equal.
  rewrite flat_map_app. cbn [flat_map]. rewrite Hk. cbn [app].
  f_equal; [|do 2 f_equal].
  - apply flat_map_fixed. intros x Hx.
    assert (Hx' : ~ In i (all_ids x)) by exact (absent_forest i A x HA Hx).
    now rewrite is_id_absent, insert_before_absent.
  - apply flat_map_fixed. intros x Hx.
    assert (Hx' : ~ In i (all_ids x)) by exact (absent_forest i P x HP Hx).
    now rewrite is_id_absent, insert_before_absent.
Qed.

Lemma remove_here i b t c a A k P :
  ~ In i (ids_forest A) -> ~ In i (ids_forest P) -> is_id i k = true ->
  remove_node i (Elem b t c a (A ++ k :: P)) = Elem b t c a (A ++ P).
Proof.
  intros HA HP Hk. cbn. f_equal.
  rewrite flat_map_app. cbn [flat_map]. rewrite Hk. cbn [app].
  f_equal.
  - apply flat_map_fixed. intros x Hx.
    assert (Hx' : ~ In i (all_ids x)) by exact (absent_forest i A x HA Hx).
    now rewrite is_id_absent, remove_node_absent.
  - apply flat_map_fixed. intros x Hx.
    assert (Hx' : ~ In i (all_ids x)) by exact (absent_forest i P x HP Hx).
    now rewrite is_id_absent, remove_node_absent.
Qed.

Lemma wrap_tree_kid g gnode cid hid h j t c a pre k post :
  j <> g -> j <> cid ->
  (forall x, In x [g; cid; hid] ->
             ~ In x (ids_forest pre) /\ ~ In x (ids_forest post) /\
             is_id x k = false) ->
  wrap_tree g gnode cid hid h (Elem j t c a (pre ++ k :: post)) =
  Elem j t c a (pre ++ wrap_tree g gnode cid hid h k :: post).
Proof.
  intros Hjg Hjc H.
  destruct (H g) as (Hg1 & Hg2 & Hg3); [now left|].
  destruct (H cid) as (Hc1 & Hc2 & Hc3); [now right; left|].
  destruct (H hid) as (Hh1 & Hh2 & Hh3); [now right; right; left|].
  unfold wrap_tree.
  rewrite remove_node_kid by assumption.
  rewrite insert_before_kid by (try assumption; now rewrite is_id_remove).
  rewrite remove_node_kid
    by (try assumption; now rewrite is_id_insert, is_id_remove).
  rewrite update_node_kid by assumption.
  rewrite remove_node_kid.
  2, 3: assumption.
  2: { rewrite is_id_update; rewrite !is_id_remove, is_id_insert, is_id_remove;
       assumption. }
  rewrite !update_node_kid by assumption.
  reflexivity.
Qed.

Lemma update_top0 i f b t c a k P :
  b <> i -> ~ In i (ids_forest P) -> is_id i k = true ->
  update_node i f (Elem b t c a (k :: P)) = Elem b t c a (f k :: P).
Proof.
  intros Hb HP Hk. apply (update_top i f b t c a [] k P); auto.
Qed.

Lemma update_kid0 i f b t c a k P :
  b <> i -> ~ In i (ids_forest P) ->
  update_node i f (Elem b t c a (k :: P)) =
  Elem b t c a (update_node i f k :: P).
Proof.
  intros Hb HP. apply (@update_node_kid i f b t c a [] k P); auto.
Qed.

Lemma wrap_tree_base g ga cid hid h j t c a post :
  j <> g -> j <> cid -> j <> hid -> g <> cid -> g <> hid -> cid <> hid ->
  (forall x, In x [g; cid; hid] -> ~ In x (ids_forest post)) ->
  wrap_tree g (svg_node g ga) cid hid h (Elem j t c a (svg_node g ga :: post)) =
  Elem j t c a
       (container_node cid h [svg_node g (styled ga); hint_node hid] :: post).
Proof.
  intros Hjg Hjc Hjh Hgc Hgh Hch H.
  assert (Hg : ~ In g (ids_forest post)) by (apply H; now left).
  assert (Hc : ~ In cid (ids_forest post)) by (apply H; now right; left).
  assert (Hh : ~ In hid (ids_forest post)) by (apply H; now right; right; left).
  unfold wrap_tree.
  rewrite (remove_node_absent cid).
  2: { rewrite all_ids_elem. cbn [flat_map].
       change (all_ids (svg_node g ga)) with [g]. cbn [app].
       intros [E|[E|Hi]]; auto. }
  rewrite (insert_before_here g _ j t c a [] (svg_node g ga) post);
    [|intros []|assumption|cbn; apply Nat.eqb_refl].
  cbn [app].
  assert (E : remove_node g
                (Elem j t c a (container_node cid h [] :: svg_node g ga :: post))
              = Elem j t c a (container_node cid h [] :: post)).
  { apply (remove_here g j t c a [container_node cid h []] (svg_node g ga) post);
      [cbn; intros [E|[]]; auto|assumption|cbn; apply Nat.eqb_refl]. }
  rewrite E. clear E.
  rewrite update_top0; [|assumption|assumption|cbn; apply Nat.eqb_refl].
  cbn [append_kid container_node app].
  rewrite (remove_node_absent hid).
  2: { rewrite all_ids_elem. cbn [flat_map]. rewrite all_ids_elem.
       cbn [flat_map]. change (all_ids (svg_node g ga)) with [g]. cbn [app].
       intros [E|[E|[E|Hi]]]; auto. }
  rewrite update_top0; [|assumption|assumption|cbn; apply Nat.eqb_refl].
  cbn [append_kid app].
  rewrite (update_kid0 g _ j); [|assumption|assumption].
  rewrite (update_top0 g _ cid);
    [|auto|cbn; intros [E|[]]; auto|cbn; apply Nat.eqb_refl].
  rewrite (update_kid0 g _ j); [|assumption|assumption].
  rewrite (update_top0 g _ cid);
    [|auto|cbn; intros [E|[]]; auto|cbn; apply Nat.eqb_refl].
  reflexivity.
Qed.

(** Wrapping the graphic of a stack adds one innermost layer. *)
Lemma wrap_stack g ga cid hid h ls : forall j t c a post,
  j <> g -> j <> cid -> j <> hid -> g <> cid -> g <> hid -> cid <> hid ->
  (forall x, In x [g; cid; hid] ->
             ~ In x (ids_forest post) /\ ~ In x (layer_ids ls)) ->
  wrap_tree g (svg_node g ga) cid hid h
            (Elem j t c a (stack (svg_node g ga) ls :: post)) =
  Elem j t c a
       (stack (svg_node g (styled ga)) (ls ++ [Layer cid hid h]) :: post).
Proof.
  induction ls as [|l r IH]; intros j t c a post Hjg Hjc Hjh Hgc Hgh Hch H.
  - cbn [stack app]. apply wrap_tree_base; auto.
    intros x Hx. now apply H.
  - cbn [stack app].
    assert (Hl : forall x, In x [g; cid; hid] ->
                 l_container l <> x /\ l_hint l <> x /\ ~ In x (layer_ids r)).
    { intros x Hx. destruct (H x Hx) as [_ Hn]. cbn in Hn. repeat split.
      - intros E. apply Hn. now left.
      - intros E. apply Hn. now right; left.
      - intros Hi. apply Hn. now right; right. }
    pose proof (wrap_tree_kid g (svg_node g ga) cid hid h j t c a []
               (container_node (l_container l) (l_height l)
                  [stack (svg_node g ga) r; hint_node (l_hint l)]) post
               Hjg Hjc) as E.
    cbn [app] in E. rewrite E; clear E.
    + f_equal. f_equal. unfold container_node.
      rewrite (IH (l_container l) "div" _ _ [hint_node (l_hint l)]).
      * reflexivity.
      * apply Hl. now left.
      * apply Hl. now right; left.
      * apply Hl. now right; right; left.
      * assumption.
      * assumption.
      * assumption.
      * intros x Hx. destruct (Hl x Hx) as (H1 & H2 & H3). split; [|exact H3].
        cbn. intros [E|[]]. now apply H2.
    + intros x Hx. destruct (H x Hx) as [H1 _]. destruct (Hl x Hx) as (H2 & _).
      split; [intros []|]. split; [exact H1|].
      cbn. now apply Nat.eqb_neq.
Qed.

Lemma dom_get_node_id d i n : dom_get d i = Some n -> node_id n = Some i.
Proof.
  unfold dom_get. intros H. apply find_some in H. destruct H as [_ H].
  destruct n as [s|j t c a ks]; [discriminate|].
  cbn in *. apply Nat.eqb_eq in H. now subst.
Qed.

Lemma addZoomControls_doc X w svg idx gnode p :
  dom_get (page w) svg = Some gnode ->
  parentNode (page w) svg = Some p ->
  exists w',
    addZoomControls X w svg idx = Normal w' /\
    doc (page w') =
      wrap_tree svg gnode (next_id w) (S (next_id w))
                (height_px X gnode) (doc (page w)) /\
    next_id w' = S (S (next_id w)) /\
    data_theme w' = data_theme w /\ mermaidSources w' = mermaidSources w /\
    engine w' = engine w /\ calls w' = calls w /\ observing w' = observing w /\
    panzoom w' = panzoom w ++
      (if svgPanZoom_throws X (styled_svg gnode) then [] else [svg]) /\
    console w' = console w ++
      [if svgPanZoom_throws X (styled_svg gnode)
       then LogError "[Mermaid] Failed to enable zoom:"
       else Log "[Mermaid] Zoom enabled for diagram"].
Proof.
  intros Hg Hp. unfold addZoomControls. rewrite Hg. cbn [with_next page].
  rewrite Hp. pose proof (dom_get_node_id _ _ _ Hg) as Hid.
  assert (Hdoc : doc (appendChild
                   (insertBefore (page w) svg
                      (container_node (next_id w)
                         (height_px X gnode) []))
                   (next_id w) gnode) =
                 update_node (next_id w) (append_kid gnode)
                   (remove_node svg
                      (insert_before svg
                         (container_node (next_id w)
                            (height_px X gnode) [])
                         (remove_node (next_id w) (doc (page w)))))).
  { unfold appendChild, adopt. rewrite Hid. reflexivity. }
  destruct (svgPanZoom_throws X (styled_svg gnode)); eexists;
    (split; [reflexivity|]);
    cbn [page with_page log add_panzoom next_id data_theme mermaidSources
         engine calls observing panzoom console with_next];
    rewrite ?app_nil_r; (split; [|repeat split; reflexivity]);
    unfold wrap_tree; cbn [dom_set_attr map_trees doc];
    unfold appendChild at 1; cbn [map_trees doc adopt hint_node node_id dom_detach];
    rewrite Hdoc; reflexivity.
Qed.

Lemma parentNode_of_path d i :
  2 <= List.length (path_to i (doc d)) -> parentNode d i <> None.
Proof.
  intros H. unfold parentNode. rewrite ancestors_doc.
  - rewrite <- length_rev in H.
    destruct (List.rev (path_to i (doc d))) as [|x [|y l]]; cbn in H;
      try lia. discriminate.
  - intros E. rewrite E in H. cbn in H. lia.
Qed.

Lemma all_ids_drawn_perm i a g ga ls :
  Permutation (all_ids (mount_node (Mount i a (Drawn g ga ls))))
              (i :: g :: layer_ids ls).
Proof.
  unfold mount_node. rewrite all_ids_elem.
  cbn [m_id m_content kids_of_content flat_map]. rewrite app_nil_r.
  apply perm_skip, stack_ids_perm.
Qed.

Lemma shaped_slot_nodup b ba w pre s post :
  shaped b ba w (pre ++ s :: post) -> NoDup (all_ids (node_of_slot s)).
Proof.
  intros (Hdoc & Hnd & _). rewrite Hdoc in Hnd.
  fold (body_node b ba (pre ++ s :: post)) in Hnd.
  rewrite all_ids_body, ids_split in Hnd.
  inversion Hnd as [|? ? _ Hrest]; subst.
  apply NoDup_app_parts in Hrest. destruct Hrest as (_ & HSP & _).
  apply NoDup_app_parts in HSP. now destruct HSP as (HS & _).
Qed.

Lemma path_to_only i b t c a k :
  b <> i -> path_to i k <> [] ->
  path_to i (Elem b t c a [k]) = Elem b t c a [k] :: path_to i k.
Proof.
  intros Hb Hk. apply (@path_to_kid i b t c a [] k []); auto.
Qed.

Lemma addZoomControls_shaped X b ba w pre i a g ga ls post idx :
  shaped b ba w (pre ++ Mounted (Mount i a (Drawn g ga ls)) :: post) ->
  exists w',
    addZoomControls X w g idx = Normal w' /\
    shaped b ba w'
      (pre ++ fst (enhance_slot X (Mounted (Mount i a (Drawn g ga ls)))
                                (next_id w)) :: post) /\
    next_id w' = S (S (next_id w)) /\
    data_theme w' = data_theme w /\ mermaidSources w' = mermaidSources w /\
    engine w' = engine w /\ calls w' = calls w /\ observing w' = observing w /\
    panzoom w' = panzoom w ++
      (if svgPanZoom_throws X (svg_node g (styled ga)) then [] else [g]) /\
    console w' = console w ++
      [if svgPanZoom_throws X (svg_node g (styled ga))
       then LogError "[Mermaid] Failed to enable zoom:"
       else Log "[Mermaid] Zoom enabled for diagram"].
Proof.
  intros H. set (m := Mount i a (Drawn g ga ls)) in *.
  pose proof (shaped_slot_nodup _ _ _ _ _ _ H) as Hnd. cbn [node_of_slot] in Hnd.
  pose proof (all_ids_drawn_perm i a g ga ls) as Hperm. fold m in Hperm.
  assert (Hnd2 : NoDup (i :: g :: layer_ids ls))
    by (eapply Permutation_NoDup; eassumption).
  assert (Hig : i <> g).
  { inversion Hnd2 as [|? ? Hn _]; subst. intros ->. apply Hn. now left. }
  assert (Hgl : ~ In g (layer_ids ls)).
  { inversion Hnd2 as [|? ? _ Hn]; subst. now inversion Hn. }
  assert (Hin : forall x, In x (i :: g :: layer_ids ls) ->
                          In x (all_ids (mount_node m))).
  { intros x Hx. eapply Permutation_in; [symmetry; exact Hperm|exact Hx]. }
  assert (Hlt : forall x, In x (i :: g :: layer_ids ls) -> x < next_id w).
  { intros x Hx. apply (in_doc_lt b ba w pre (Mounted m) post x H). now apply Hin. }
  destruct (shaped_ids_at b ba w pre (Mounted m) post g H)
    as (Hbg & HAg & HPg); [apply Hin; now right; left|].
  destruct (shaped_ids_at b ba w pre (Mounted m) post i H)
    as (Hbi & HAi & HPi); [apply Hin; now left|].
  assert (Hfresh : forall x, next_id w <= x ->
            b <> x /\ ~ In x (ids_forest (map node_of_slot pre)) /\
            ~ In x (ids_forest (map node_of_slot post)) /\
            ~ In x (i :: g :: layer_ids ls)).
  { intros x Hx. destruct H as (Hdoc & _ & Hall & _). rewrite Hdoc in Hall.
    fold (body_node b ba (pre ++ Mounted m :: post)) in Hall.
    rewrite all_ids_body, ids_split in Hall. repeat split.
    - intros ->. specialize (Hall x (or_introl eq_refl)). lia.
    - intros Hi. assert (x < next_id w); [|lia]. apply Hall. right.
      apply in_or_app. now left.
    - intros Hi. assert (x < next_id w); [|lia]. apply Hall. right.
      apply in_or_app. right. apply in_or_app. now right.
    - intros Hi. apply Hlt in Hi. lia. }
  destruct (Hfresh (next_id w) (le_n _)) as (Hbc & HAc & HPc & Hmc).
  destruct (Hfresh (S (next_id w)) (le_S _ _ (le_n _))) as (Hbh & HAh & HPh & Hmh).
  assert (Hdocw : doc (page w) =
            Elem b "body" [] ba
              (map node_of_slot pre ++ mount_node m :: map node_of_slot post)).
  { destruct H as (Hdoc & _). now rewrite Hdoc, map_app. }
  assert (Hget : dom_get (page w) g = Some (svg_node g ga)).
  { apply dom_get_doc. rewrite Hdocw. apply find_node_kid; [assumption..|].
    unfold mount_node. cbn [m_id m_attrs m_content m kids_of_content].
    apply (@find_node_kid g i "div" ["mermaid"] a [] _ []); [assumption|intros []|].
    now apply find_stack. }
  assert (Hpar : parentNode (page w) g <> None).
  { apply parentNode_of_path. rewrite Hdocw.
    rewrite path_to_kid; [| assumption | assumption |].
    - unfold mount_node. cbn [m_id m_attrs m_content m kids_of_content].
      rewrite path_to_only;
        [cbn; lia|assumption|now apply path_stack_nonempty].
    - unfold mount_node. cbn [m_id m_attrs m_content m kids_of_content].
      rewrite path_to_only;
        [discriminate|assumption|now apply path_stack_nonempty]. }
  destruct (parentNode (page w) g) as [p|] eqn:Ep; [clear Hpar|contradiction].
  destruct (addZoomControls_doc X w g idx (svg_node g ga) p Hget Ep)
    as (w' & Hw & Hd & Hn & Hrest).
  exists w'. split; [exact Hw|]. split; [|split; [exact Hn|exact Hrest]].
  set (cid := next_id w) in *. set (hid := S cid) in *.
  set (h := height_px X (svg_node g ga)) in *.
  assert (Hneq : g <> cid /\ g <> hid /\ i <> cid /\ i <> hid /\ cid <> hid).
  { repeat split; try (subst hid; lia).
    - intros E. apply Hmc. rewrite <- E. now right; left.
    - intros E. apply Hmh. rewrite <- E. now right; left.
    - intros E. apply Hmc. rewrite <- E. now left.
    - intros E. apply Hmh. rewrite <- E. now left. }
  destruct Hneq as (Hgc & Hgh & Hic & Hih & Hch).
  eapply shaped_update; [exact H| | | | |reflexivity].
  - rewrite Hd, Hdocw.
    rewrite wrap_tree_kid; [| assumption | assumption |].
    + rewrite doc_body_split. do 3 f_equal.
      cbn [enhance_slot fst node_of_slot m]. unfold mount_node.
      cbn [m_id m_attrs m_content kids_of_content].
      apply wrap_stack; auto.
      intros x [<-|[<-|[<-|[]]]]; (split; [intros []|]); auto.
      * intros Hi. apply Hmc. now right; right.
      * intros Hi. apply Hmh. now right; right.
    + intros x [<-|[<-|[<-|[]]]]; (split; [assumption|split; [assumption|]]);
        cbn; now apply Nat.eqb_neq.
  - rewrite Hn. lia.
  - cbn [enhance_slot fst node_of_slot m].
    eapply Permutation_NoDup; [symmetry; apply all_ids_drawn_perm|].
    rewrite layer_ids_app. cbn [layer_ids flat_map app l_container l_hint].
    apply (Permutation_NoDup (l := [cid; hid] ++ (i :: g :: layer_ids ls))).
    + cbn [app].
      apply perm_trans with (i :: cid :: hid :: g :: layer_ids ls).
      * apply perm_trans with (cid :: i :: hid :: g :: layer_ids ls);
          [apply perm_skip, perm_swap|apply perm_swap].
      * apply perm_skip.
        apply perm_trans with (g :: cid :: hid :: layer_ids ls).
        -- apply perm_trans with (cid :: g :: hid :: layer_ids ls);
             [apply perm_skip, perm_swap|apply perm_swap].
        -- apply perm_skip.
           change (cid :: hid :: layer_ids ls) with ([cid; hid] ++ layer_ids ls).
           apply Permutation_app_comm.
    + cbn [app]. constructor; [|constructor; [|exact Hnd2]].
      * intros [E|Hi]; [now apply Hch|now apply Hmc].
      * exact Hmh.
  - cbn [enhance_slot fst node_of_slot m]. intros x Hx.
    assert (Hx' : In x (i :: g :: layer_ids (ls ++ [Layer cid hid h]))).
    { eapply Permutation_in; [apply all_ids_drawn_perm|exact Hx]. }
    rewrite layer_ids_app in Hx'.
    cbn [layer_ids flat_map app l_container l_hint] in Hx'. rewrite Hn.
    assert (Hcase : In x (i :: g :: layer_ids ls) \/ x = cid \/ x = hid).
    { destruct Hx' as [<-|[<-|Hx']]; [left; now left|left; now right; left|].
      apply in_app_or in Hx'. destruct Hx' as [Hx'|[<-|[<-|[]]]]; auto.
      left. now right; right. }
    destruct Hcase as [Hc|[ -> | -> ]].
    + split; [left; now apply Hin|]. apply Hlt in Hc. lia.
    + split; [right; subst cid; lia|subst cid; lia].
    + split; [right; subst hid cid; lia|subst hid cid; lia].
Qed.

(* ------------------------------------------------------------------ *)
(** ** The zoom-control loop on a body of slots *)

Lemma enhance_loop_shaped X b ba todo : forall done w pairs,
  shaped b ba w (done ++ todo) ->
  map fst pairs = svg_ids todo ->
  exists w',
    forEach_try pairs (addZoomControls X) w = Normal w' /\
    shaped b ba w' (done ++ fst (enhance_slots X todo (next_id w))) /\
    next_id w' = snd (enhance_slots X todo (next_id w)) /\
    data_theme w' = data_theme w /\ mermaidSources w' = mermaidSources w /\
    engine w' = engine w /\ calls w' = calls w /\ observing w' = observing w /\
    panzoom w' = panzoom w ++ zoomed X todo /\
    console w' = console w ++ zoom_logs X todo.
Proof.
  induction todo as [|s todo IH]; intros done w pairs H Hp.
  - cbn in Hp. destruct pairs; [|discriminate]. exists w.
    cbn [forEach_try enhance_slots fst snd zoomed zoom_logs flat_map].
    rewrite !app_nil_r in *. split; [reflexivity|]. split; [exact H|].
    repeat split; reflexivity.
  - assert (Hskip : forall s', s' = s ->
              svg_ids (s :: todo) = svg_ids todo ->
              enhance_slot X s (next_id w) = (s, next_id w) ->
              zoomed X (s :: todo) = zoomed X todo ->
              zoom_logs X (s :: todo) = zoom_logs X todo ->
              exists w',
                forEach_try pairs (addZoomControls X) w = Normal w' /\
                shaped b ba w'
                  (done ++ fst (enhance_slots X (s :: todo) (next_id w))) /\
                next_id w' = snd (enhance_slots X (s :: todo) (next_id w)) /\
                data_theme w' = data_theme w /\
                mermaidSources w' = mermaidSources w /\
                engine w' = engine w /\ calls w' = calls w /\
                observing w' = observing w /\
                panzoom w' = panzoom w ++ zoomed X (s :: todo) /\
                console w' = console w ++ zoom_logs X (s :: todo)).
    { intros s' _ E1 E2 E3 E4. rewrite E1 in Hp.
      replace (done ++ s :: todo) with ((done ++ [s]) ++ todo) in H
        by now rewrite <- app_assoc.
      destruct (IH _ _ _ H Hp) as (w' & H1 & H2 & H3 & Hrest).
      exists w'. cbn [enhance_slots]. rewrite E2, E3, E4.
      destruct (enhance_slots X todo (next_id w)) as [r n2]. cbn [fst snd] in *.
      rewrite <- app_assoc in H2.
      split; [exact H1|]. split; [exact H2|]. split; [exact H3|exact Hrest]. }
    destruct s as [n|[i a [src|g ga ls]]]; try (apply (Hskip _ eq_refl); reflexivity).
    clear Hskip.
    cbn [svg_ids flat_map app] in Hp. change (flat_map _ todo) with (svg_ids todo) in Hp.
    destruct pairs as [|[x idx] pairs]; [discriminate|].
    cbn [map fst] in Hp. inversion Hp as [[Hx Hp']]. subst x.
    destruct (addZoomControls_shaped X b ba w done i a g ga ls todo idx H)
      as (w1 & Hw1 & Hs1 & Hn1 & Ht1 & Hm1 & He1 & Hc1 & Ho1 & Hz1 & Hl1).
    cbn [forEach_try]. rewrite Hw1.
    cbn [enhance_slot fst] in Hs1.
    set (s1 := Mounted (Mount i a (Drawn g (styled ga)
                 (ls ++ [Layer (next_id w) (S (next_id w))
                           (height_px X (svg_node g ga))]))))
      in *.
    replace (done ++ s1 :: todo) with ((done ++ [s1]) ++ todo) in Hs1
      by now rewrite <- app_assoc.
    destruct (IH _ _ _ Hs1 Hp')
      as (w' & H1 & H2 & H3 & Ht & Hm & He & Hc & Ho & Hz & Hl).
    exists w'. cbn [enhance_slots enhance_slot]. rewrite Hn1 in H2, H3.
    destruct (enhance_slots X todo (S (S (next_id w)))) as [r n2].
    cbn [fst snd] in *. rewrite <- app_assoc in H2.
    split; [exact H1|]. split; [exact H2|]. split; [exact H3|].
    repeat split; try congruence.
    + rewrite Hz, Hz1, <- app_assoc. reflexivity.
    + rewrite Hl, Hl1, <- app_assoc. reflexivity.
Qed.

(* ------------------------------------------------------------------ *)
(** ** A whole render pass on a body of slots *)

Lemma shaped_same_dom b ba w w' slots :
  page w' = page w -> next_id w' = next_id w ->
  shaped b ba w slots -> shaped b ba w' slots.
Proof. unfold shaped. intros -> ->. trivial. Qed.

Lemma map_fst_indexed l : map fst (indexed l) = l.
Proof.
  unfold indexed. generalize 0.
  induction l as [|x l IH]; intros n; [reflexivity|].
  cbn. now rewrite IH.
Qed.



Lemma render_finish_shaped X b ba w slots :
  shaped b ba w slots ->
  let w' := render_finish X w false in
  shaped b ba w' (fst (enhance_slots X slots (next_id w))) /\
  next_id w' = snd (enhance_slots X slots (next_id w)) /\
  data_theme w' = data_theme w /\ mermaidSources w' = mermaidSources w /\
  observing w' = observing w /\
  panzoom w' = panzoom w ++ zoomed X slots /\
  console w' =
    console w ++ Log "[Mermaid] Rendering complete, adding zoom controls..."
      :: zoom_logs X slots.
Proof.
  intros H. cbv zeta. unfold render_finish.
  set (w0 := log w (Log "[Mermaid] Rendering complete, adding zoom controls...")).
  assert (H0 : shaped b ba w0 ([] ++ slots))
    by (apply (shaped_same_dom b ba w); auto).
  destruct H as (Hdoc & Hrest). cbn [log page w0]. rewrite Hdoc.
  fold (body_node b ba slots).
  rewrite querySelectorAll_svg_body by apply Hrest.
  destruct (enhance_loop_shaped X b ba slots [] w0 (indexed (svg_ids slots)) H0
              (map_fst_indexed _))
    as (w' & H1 & H2 & H3 & Ht & Hm & He & Hc & Ho & Hz & Hl).
  fold w0. rewrite H1.
  change (next_id w0) with (next_id w) in *.
  split; [exact H2|]. split; [exact H3|].
  repeat split; try assumption.
  rewrite Hl. cbn [w0 log console]. now rewrite <- app_assoc.
Qed.



(* ------------------------------------------------------------------ *)
(** ** One child of the body through a pass *)


























(* ------------------------------------------------------------------ *)
(** ** Counting the containers of a pass *)

Lemma select_containers_stack g ga ls :
  ids_of (select_below sel_mermaid sel_container true (stack (svg_node g ga) ls))
  = map l_container ls.
Proof.
  induction ls as [|l r IH]; [reflexivity|].
  cbn [stack]. unfold container_node. cbn [select_below flat_map orb andb].
  change (sel_container (Elem (l_container l) "div" ["mermaid-container"]
            (container_style (l_height l))
            [stack (svg_node g ga) r; hint_node (l_hint l)])) with true.
  cbn iota.
  change (select_below sel_mermaid sel_container true (hint_node (l_hint l)))
    with (@nil node).
  rewrite !app_nil_r. cbn [app].
  change (ids_of (?x :: ?l)) with (ids_of [x] ++ ids_of l).
  cbn [map]. rewrite <- IH. reflexivity.
Qed.

Lemma slot_container_ids s :
  inert_ok s = true ->
  ids_of (select_below sel_mermaid sel_container false (node_of_slot s)) =
  containers_of_slot s.
Proof.
  intros Hs. destruct s as [n|[i a [s|g ga ls]]]; cbn [node_of_slot].
  - rewrite select_below_nil; [reflexivity|].
    intros x. apply (mermaid_free_spec Hs).
  - unfold mount_node. cbn [select_below m_content kids_of_content andb app].
    unfold text_kids. now destruct (String.eqb s "").
  - unfold mount_node.
    cbn [select_below m_content kids_of_content andb app flat_map orb
         sel_mermaid has_class existsb String.eqb Ascii.eqb Bool.eqb].
    rewrite app_nil_r. apply select_containers_stack.
Qed.

Lemma enhancements_shaped b ba w slots :
  shaped b ba w slots -> enhancements w = flat_map containers_of_slot slots.
Proof.
  intros (Hdoc & _ & _ & Hok). unfold enhancements, querySelectorAll_desc.
  rewrite Hdoc.
  cbn [select_below andb app orb sel_mermaid has_class existsb].
  rewrite flat_map_concat_map, map_map, <- flat_map_concat_map.
  rewrite ids_of_flat_map.
  apply flat_map_ext_in. intros s Hs. apply slot_container_ids.
  rewrite forallb_forall in Hok. now apply Hok.
Qed.









(* ------------------------------------------------------------------ *)
(** ** Mount elements with an empty cached source *)








(* ------------------------------------------------------------------ *)
(** ** The conversion loop *)





Lemma forallb_flat_map {A B} (p : B -> bool) (f : A -> list B) l :
  forallb p (flat_map f l) = forallb (fun x => forallb p (f x)) l.
Proof.
  induction l as [|x l IH]; [reflexivity|].
  cbn. now rewrite forallb_app, IH.
Qed.








Lemma path_to_root i k : is_id i k = true -> path_to i k = [k].
Proof.
  destruct k as [s|j t c a ks]; [discriminate|]. cbn. now intros ->.
Qed.




















(** C3 at the failing input: after the conversion of a page whose first
    diagram-tagged [pre] has no [code], the one mount element carries index 1
    while [window.mermaidSources] has a single entry. *)
Theorem C3_index_unresolved_after_codeless_block :
  let w := convert sample_externals misaligned_page in
  mermaidSources w = ["graph LR"] /\
  map (fun m => attr_of m "data-block-index") (mounts w) = [Some "1"] /\
  forallb (index_resolves w) (mounts w) = false.
Proof. vm_compute. repeat split. Qed.

(* ------------------------------------------------------------------ *)
(** ** Indices written by the conversion are read back by the teardown *)








(* ------------------------------------------------------------------ *)
(** ** The first pass, and the states a loaded page can reach *)










(* ------------------------------------------------------------------ *)
(** ** A failing pan/zoom initialisation *)

Lemma enhance_adds_one_layer X slots : forall n,
  List.length (flat_map containers_of_slot (fst (enhance_slots X slots n))) =
  List.length (flat_map containers_of_slot slots) + List.length (svg_ids slots).
Proof.
  induction slots as [|s slots IH]; intros n; [reflexivity|].
  cbn [enhance_slots]. destruct (enhance_slot X s n) as [s' n1] eqn:E.
  specialize (IH n1). destruct (enhance_slots X slots n1) as [r n2].
  cbn [fst] in *. unfold svg_ids. cbn [flat_map].
  fold (svg_ids slots). rewrite !length_app, IH.
  destruct s as [nd|[i a [src|g ga ls]]]; cbn in E; inversion E; subst;
    cbn [containers_of_slot List.length].
  - lia.
  - lia.
  - rewrite !length_map, length_app. cbn [List.length]. lia.
Qed.

(** C7: when [svgPanZoom] throws for a graphic, [addZoomControls] still
    completes: the error is logged, no pan/zoom instance is recorded, and the
    graphic sits in its sized container exactly as after a successful
    initialisation.  The loop goes on, and the DOM at the end of the pass is
    the one that a pass without any pan/zoom failure produces.  On a body of
    mount elements, every graphic below a mount element gets one more
    container, and exactly the graphics for which [svgPanZoom] did not throw
    get a pan/zoom instance. *)
Theorem C7_panzoom_failure_is_local X w svg index g :
  dom_get (page w) svg = Some g ->
  parentNode (page w) svg <> None ->
  svgPanZoom_throws X (styled_svg g) = true ->
  (exists w',
     addZoomControls X w svg index = Normal w' /\
     console w' = console w ++ [LogError "[Mermaid] Failed to enable zoom:"] /\
     panzoom w' = panzoom w /\
     page w' =
     page (state_of (addZoomControls (with_working_panzoom X) w svg index))) /\
  (forall w0,
     page (render_finish X w0 false) =
     page (render_finish (with_working_panzoom X) w0 false)) /\
  (forall b ba w0 slots,
     shaped b ba w0 slots ->
     List.length (enhancements (render_finish X w0 false)) =
     List.length (enhancements w0) + List.length (svg_ids slots) /\
     panzoom (render_finish X w0 false) = panzoom w0 ++ zoomed X slots).
Proof.
  intros Hg Hp Ht. split; [|split].
  - unfold addZoomControls. rewrite Hg. cbn [with_next page].
    destruct (parentNode (page w) svg) as [p|]; [|contradiction].
    rewrite Ht. cbn [with_working_panzoom svgPanZoom_throws getBBox_height].
    eexists. split; [reflexivity|]. now cbn.
  - intros w0. unfold render_finish.
    set (w1 := log w0 _). set (l := indexed _).
    pose proof (zoom_loop_page_independent X l w1 w1 eq_refl eq_refl) as H.
    destruct (forEach_try l (addZoomControls X) w1),
             (forEach_try l (addZoomControls (with_working_panzoom X)) w1);
      exact H.
  - intros b ba w0 slots H.
    destruct (render_finish_shaped X b ba w0 slots H)
      as (H1 & _ & _ & _ & _ & Hz & _).
    split; [|exact Hz].
    rewrite (enhancements_shaped _ _ _ _ H1), (enhancements_shaped _ _ _ _ H).
    apply enhance_adds_one_layer.
Qed.

(** The hypotheses of C7 are met by the graphic of the sample page when
    pan/zoom always throws. *)
Lemma C7_witness :
  exists w',
    addZoomControls static_externals sample_rendered 6 0 = Normal w' /\
    panzoom w' = panzoom sample_rendered.
Proof.
  destruct (C7_panzoom_failure_is_local static_externals sample_rendered 6 0
              (Elem 6 "svg" [] [("aria-roledescription", "dark")] []))
    as [(w' & H1 & _ & H3 & _) _].
  - reflexivity.
  - vm_compute. discriminate.
  - reflexivity.
  - exists w'. split; assumption.
Defined.

(* ------------------------------------------------------------------ *)
(** ** The sample pages *)









(* ------------------------------------------------------------------ *)
(** * Further properties of the script *)

(* ------------------------------------------------------------------ *)
(** ** What no event after the load writes *)

Lemma render_begin_keeps w :
  data_theme (render_begin w) = data_theme w /\
  mermaidSources (render_begin w) = mermaidSources w /\
  observing (render_begin w) = observing w /\
  panzoom (render_begin w) = panzoom w.
Proof.
  unfold render_begin. cbn [call_engine data_theme mermaidSources observing panzoom].
  set (w1 := log w _).
  pose proof (teardown_outside w1) as H. unfold outside in H.
  inversion H. now repeat split.
Qed.

Lemma render_run_keeps X w :
  data_theme (fst (render_run X w)) = data_theme w /\
  mermaidSources (fst (render_run X w)) = mermaidSources w /\
  observing (fst (render_run X w)) = observing w /\
  panzoom (fst (render_run X w)) = panzoom w.
Proof.
  unfold render_run.
  destruct (mermaid_run_outside X (log w (Log "[Mermaid] Rendering diagrams"))
              (querySelectorAll sel_mermaid (doc (page w))))
    as (H1 & H2 & _ & _ & _ & H3 & H4).
  now repeat split.
Qed.

Lemma addZoomControls_keeps X w svg i :
  data_theme (state_of (addZoomControls X w svg i)) = data_theme w /\
  mermaidSources (state_of (addZoomControls X w svg i)) = mermaidSources w.
Proof.
  unfold addZoomControls.
  destruct (dom_get (page w) svg); [|now cbn].
  cbn [with_next page].
  destruct (parentNode (page w) svg); [|now cbn].
  destruct (svgPanZoom_throws X (styled_svg n)); now cbn.
Qed.

Lemma render_finish_keeps X w r :
  data_theme (render_finish X w r) = data_theme w /\
  mermaidSources (render_finish X w r) = mermaidSources w.
Proof.
  unfold render_finish. destruct r; [now cbn|].
  set (w1 := log w _).
  set (l := indexed _).
  pose proof (@forEach_try_preserves _
                (fun w => (data_theme w, mermaidSources w))
                (addZoomControls X) l w1) as H.
  cbn beta in H.
  assert (H' : (data_theme (state_of (forEach_try l (addZoomControls X) w1)),
                mermaidSources (state_of (forEach_try l (addZoomControls X) w1)))
               = (data_theme w1, mermaidSources w1)).
  { apply H. intros w' x i.
    destruct (addZoomControls_keeps X w' x i) as (-> & ->). reflexivity. }
  destruct (forEach_try l (addZoomControls X) w1); cbn in *;
    inversion H'; now split.
Qed.

Lemma step_keeps_sources X s e :
  e <> Load ->
  mermaidSources (now (step X s e)) = mermaidSources (now s).
Proof.
  intros He. destruct e as [|v|k|k]; [contradiction| | |]; cbn [step].
  - destruct (observing (set_data_theme (now s) v)); cbn [now]; [|reflexivity].
    unfold on_theme_mutation.
    destruct (render_begin_keeps
                (log (set_data_theme (now s) v)
                     (Log "[Mermaid] Theme changed, re-rendering diagrams...")))
      as (_ & H & _).
    rewrite H. reflexivity.
  - destruct (nth_error (inflight s) k) as [[|r]|]; try reflexivity.
    pose proof (render_run_keeps X (now s)) as (_ & H & _).
    destruct (render_run X (now s)) as [w r]. exact H.
  - destruct (nth_error (inflight s) k) as [[|r]|]; try reflexivity.
    cbn [now]. apply render_finish_keeps.
Qed.

Lemma step_keeps_observer X s e :
  observing (now s) = true -> observing (now (step X s e)) = true.
Proof.
  intros Ho. destruct e as [|v|k|k]; cbn [step].
  - reflexivity.
  - change (observing (set_data_theme (now s) v)) with (observing (now s)).
    rewrite Ho. cbn [now]. unfold on_theme_mutation.
    destruct (render_begin_keeps
                (log (set_data_theme (now s) v)
                     (Log "[Mermaid] Theme changed, re-rendering diagrams...")))
      as (_ & _ & H & _).
    rewrite H. exact Ho.
  - destruct (nth_error (inflight s) k) as [[|r]|]; try assumption.
    pose proof (render_run_observing X (now s)) as H.
    destruct (render_run X (now s)) as [w r]. cbn [now]. cbn [fst] in H. congruence.
  - destruct (nth_error (inflight s) k) as [[|r]|]; try assumption.
    cbn [now]. destruct (render_finish_calls X (now s) r) as (_ & _ & H).
    congruence.
Qed.

(** X1: once the load handler has run, nothing writes
    [window.mermaidSources] any more: whatever theme changes, elapsed delays
    and settled batch calls follow, in whatever interleaving, the list is the
    one the conversion left; and the theme observer, once installed, stays
    installed. *)
Theorem X1_sources_written_only_at_load X evs : forall s,
  ~ In Load evs ->
  mermaidSources (now (run_events X evs s)) = mermaidSources (now s) /\
  (observing (now s) = true -> observing (now (run_events X evs s)) = true).
Proof.
  unfold run_events. induction evs as [|e evs IH]; intros s Hn; cbn [fold_left].
  - split; trivial.
  - destruct (IH (step X s e)) as (H1 & H2).
    { intros H. apply Hn. now right. }
    split.
    + rewrite H1. apply step_keeps_sources. intros ->. apply Hn. now left.
    + intros Ho. apply H2. now apply step_keeps_observer.
Qed.

Lemma X1_witness :
  mermaidSources
    (now (run_events sample_externals
            [ThemeChange (Some "light"); ThemeChange (Some "dark");
             DelayElapsed 0; DelayElapsed 1; RunSettled 0; RunSettled 0]
            (Session (on_load sample_externals sample_page) [Delaying])))
  = ["graph LR"].
Proof.
  apply (X1_sources_written_only_at_load sample_externals
           [ThemeChange (Some "light"); ThemeChange (Some "dark");
            DelayElapsed 0; DelayElapsed 1; RunSettled 0; RunSettled 0]
           (Session (on_load sample_externals sample_page) [Delaying])).
  intros H. cbn in H. intuition discriminate.
Defined.

(* ------------------------------------------------------------------ *)
(** ** Mutation records delivered in one batch *)

Lemma on_theme_mutation_calls w :
  calls (on_theme_mutation w) =
  calls w ++ [Initialize (Config false (getCurrentTheme w) "error")] /\
  data_theme (on_theme_mutation w) = data_theme w.
Proof.
  unfold on_theme_mutation. split.
  - rewrite render_begin_calls. reflexivity.
  - now destruct (render_begin_keeps
                    (log w (Log "[Mermaid] Theme changed, re-rendering diagrams..."))).
Qed.

(** X2: the observer callback starts one render pass per [data-theme]
    record of the batch it is given, not one per batch, and every one of them
    configures the engine with the palette of the attribute value that is
    current when the callback runs; records about anything else start
    nothing, and a batch without a [data-theme] record changes nothing. *)
Theorem X2_one_pass_per_theme_record ms : forall w,
  calls (observer_callback w ms) =
    calls w ++ repeat (Initialize (Config false (getCurrentTheme w) "error"))
                      (List.length (filter is_theme_record ms)) /\
  data_theme (observer_callback w ms) = data_theme w /\
  (filter is_theme_record ms = [] -> observer_callback w ms = w).
Proof.
  unfold observer_callback.
  induction ms as [|m ms IH]; intros w; cbn [fold_left filter].
  - cbn. rewrite app_nil_r. repeat split.
  - destruct (is_theme_record m).
    + destruct (IH (on_theme_mutation w)) as (Hc & Ht & _).
      destruct (on_theme_mutation_calls w) as (Hc1 & Ht1).
      split; [|split].
      * assert (E : getCurrentTheme (on_theme_mutation w) = getCurrentTheme w)
          by (unfold getCurrentTheme; now rewrite Ht1).
        rewrite Hc, Hc1, E. cbn [List.length repeat].
        rewrite <- app_assoc. reflexivity.
      * congruence.
      * discriminate.
    + apply IH.
Qed.

(* ------------------------------------------------------------------ *)
(** ** Theme changes before the load handler has run *)

Lemma convert_block_theme X w pre i :
  data_theme (convert_block X w pre i) = data_theme w /\
  calls (convert_block X w pre i) = calls w /\
  panzoom (convert_block X w pre i) = panzoom w.
Proof.
  unfold convert_block.
  destruct (dom_get (page w) pre); [|now repeat split].
  destruct (querySelector sel_code n); [|now repeat split].
  cbn [with_next page].
  destruct (closest sel_figure _ pre) as [[|]|]; now repeat split.
Qed.

Lemma convert_theme X w :
  data_theme (convert X w) = data_theme w /\
  calls (convert X w) = calls w /\
  panzoom (convert X w) = panzoom w.
Proof.
  unfold convert.
  set (w1 := log (log w _) _). set (l := querySelectorAll _ _).
  pose proof (@forEach_preserves _
                (fun w => (data_theme w, calls w, panzoom w)) l
                (convert_block X) w1) as H.
  cbn beta in H.
  assert (H' : (data_theme (forEach l (convert_block X) w1),
                calls (forEach l (convert_block X) w1),
                panzoom (forEach l (convert_block X) w1))
               = (data_theme w1, calls w1, panzoom w1)).
  { apply H. intros w' x i.
    destruct (convert_block_theme X w' x i) as (-> & -> & ->). reflexivity. }
  inversion H'. now repeat split.
Qed.

Lemma last_cons {A : Type} (l : list A) : forall x d,
  last (x :: l) d = last l x.
Proof.
  induction l as [|y l IH]; intros x d; [reflexivity|].
  change (last (x :: y :: l) d) with (last (y :: l) d).
  now rewrite !IH.
Qed.

Lemma unobserved_changes X vs : forall w fl,
  observing w = false ->
  run_events X (map ThemeChange vs) (Session w fl) =
  Session (set_data_theme w (last vs (data_theme w))) fl.
Proof.
  unfold run_events.
  induction vs as [|v vs IH]; intros w fl Ho.
  - cbn. destruct w; reflexivity.
  - cbn [map fold_left step now inflight].
    change (observing (set_data_theme w v)) with (observing w). rewrite Ho.
    rewrite IH by exact Ho.
    rewrite last_cons. reflexivity.
Qed.

(** X3: the theme observer is installed by the load handler only, so a
    theme change that happens before the handler's timer has run starts no
    render pass; the first pass is the only one in flight after the load and
    it configures the engine with the palette of the last value the
    attribute was given. *)
Theorem X3_theme_changes_before_load X w vs :
  observing w = false ->
  let s := run_events X (map ThemeChange vs ++ [Load]) (Session w []) in
  let v := last vs (data_theme w) in
  in_flight s = 1 /\
  observing (now s) = true /\
  calls (now s) =
    calls w ++ [Initialize (Config false
                              (getCurrentTheme (set_data_theme w v)) "error")].
Proof.
  intros Ho s v. subst s. unfold run_events. rewrite fold_left_app.
  fold (run_events X (map ThemeChange vs) (Session w [])).
  rewrite unobserved_changes by exact Ho. fold v.
  cbn [fold_left step now inflight app in_flight List.length].
  repeat split.
  unfold on_load. cbn [observe calls]. rewrite render_begin_calls.
  destruct (convert_theme X (set_data_theme w v)) as (Ht & Hc & _).
  rewrite Hc. unfold getCurrentTheme. rewrite Ht. reflexivity.
Qed.

Lemma X3_witness :
  in_flight (run_events sample_externals
               (map ThemeChange [Some "light"; Some "dark"; Some "light"] ++ [Load])
               (Session sample_page [])) = 1.
Proof.
  apply (X3_theme_changes_before_load sample_externals sample_page
           [Some "light"; Some "dark"; Some "light"]).
  reflexivity.
Defined.

(* ------------------------------------------------------------------ *)
(** ** Loaded pages: what the passes find and what they leave alone *)










(* ------------------------------------------------------------------ *)
(** ** The node list of the batch call *)










(* ------------------------------------------------------------------ *)
(** ** When the [catch] of a pass is reached *)



(* ------------------------------------------------------------------ *)
(** ** What a pass shows for a mount element *)




(* ------------------------------------------------------------------ *)
(** ** Graphics that the teardown does not reset *)





(* ------------------------------------------------------------------ *)
(** ** Passes that overlap *)


Lemma palette_of_value w w' v :
  getCurrentTheme (set_data_theme w v) = getCurrentTheme (set_data_theme w' v).
Proof. reflexivity. Qed.












(* ------------------------------------------------------------------ *)
(** ** Tearing down twice *)






(* ------------------------------------------------------------------ *)
(** ** A container that does hold a mount element *)


Lemma ids_forest_cons k l : ids_forest (k :: l) = all_ids k ++ ids_forest l.
Proof. reflexivity. Qed.




(* ------------------------------------------------------------------ *)
(** ** What the conversion leaves behind *)







(* ------------------------------------------------------------------ *)
(** ** [addZoomControls] on an element anywhere in the document *)

Lemma all_ids_fill f n :
  all_ids (fill f n) =
  f_id f :: ids_forest (f_left f) ++ all_ids n ++ ids_forest (f_right f).
Proof.
  unfold fill. rewrite all_ids_elem.
  change (flat_map all_ids (f_left f ++ n :: f_right f))
    with (ids_forest (f_left f ++ n :: f_right f)).
  now rewrite ids_forest_app, ids_forest_cons.
Qed.

Lemma fill_inside f n x :
  NoDup (all_ids (fill f n)) -> In x (all_ids n) ->
  f_id f <> x /\ ~ In x (ids_forest (f_left f)) /\
  ~ In x (ids_forest (f_right f)).
Proof. rewrite all_ids_fill. intros Hnd Hx. exact (@nodup_child _ _ _ _ x Hnd Hx). Qed.

Lemma fill_nodup f n : NoDup (all_ids (fill f n)) -> NoDup (all_ids n).
Proof.
  rewrite all_ids_fill. intros Hnd. apply NoDup_cons_iff in Hnd.
  destruct Hnd as [_ Hnd]. apply NoDup_app_parts in Hnd.
  destruct Hnd as (_ & Hnd & _). apply NoDup_app_parts in Hnd.
  now destruct Hnd.
Qed.

Lemma fill_fresh f n x :
  ~ In x (all_ids (fill f n)) ->
  f_id f <> x /\ ~ In x (ids_forest (f_left f)) /\
  ~ In x (ids_forest (f_right f)) /\ ~ In x (all_ids n).
Proof.
  rewrite all_ids_fill. intros H. repeat split.
  - intros E. apply H. now left.
  - intros Hi. apply H. right. apply in_or_app. now left.
  - intros Hi. apply H. right. apply in_or_app. right. apply in_or_app. now right.
  - intros Hi. apply H. right. apply in_or_app. right. apply in_or_app. now left.
Qed.

Lemma in_plug ctx n x : In x (all_ids n) -> In x (all_ids (plug ctx n)).
Proof.
  intros Hx. induction ctx as [|f r IH]; [exact Hx|].
  cbn [plug]. rewrite all_ids_fill. right. apply in_or_app. right.
  apply in_or_app. now left.
Qed.

Lemma plug_nodup ctx n : NoDup (all_ids (plug ctx n)) -> NoDup (all_ids n).
Proof.
  induction ctx as [|f r IH]; [trivial|]. cbn [plug]. intros H.
  apply IH. exact (fill_nodup _ _ H).
Qed.

Lemma plug_fresh ctx n x :
  ~ In x (all_ids (plug ctx n)) -> ~ In x (all_ids n).
Proof. intros H Hx. apply H. now apply in_plug. Qed.

Lemma find_plug g x ctx : forall n,
  NoDup (all_ids (plug ctx n)) -> In g (all_ids n) ->
  find_node g n = Some x -> find_node g (plug ctx n) = Some x.
Proof.
  induction ctx as [|f r IH]; intros n Hnd Hg Hf; [exact Hf|].
  cbn [plug] in *.
  destruct (fill_inside f (plug r n) g Hnd (in_plug r n g Hg)) as (H1 & H2 & _).
  unfold fill. apply find_node_kid; auto.
  apply IH; auto. exact (fill_nodup _ _ Hnd).
Qed.

Lemma path_plug g ctx : forall n,
  NoDup (all_ids (plug ctx n)) -> In g (all_ids n) -> path_to g n <> [] ->
  exists l, path_to g (plug ctx n) = l ++ path_to g n.
Proof.
  induction ctx as [|f r IH]; intros n Hnd Hg Hp; [now exists []|].
  cbn [plug] in *.
  destruct (fill_inside f (plug r n) g Hnd (in_plug r n g Hg)) as (H1 & H2 & _).
  destruct (IH n (fill_nodup _ _ Hnd) Hg Hp) as (l & Hl).
  unfold fill. rewrite path_to_kid; auto.
  - rewrite Hl. now exists (fill f (plug r n) :: l).
  - rewrite Hl. intros E. apply app_eq_nil in E. now destruct E.
Qed.

Lemma plug_root_differs ctx par n x :
  NoDup (all_ids (plug ctx (fill par n))) -> In x (all_ids n) ->
  is_id x (plug ctx (fill par n)) = false.
Proof.
  intros Hnd Hx. destruct ctx as [|f r]; cbn [plug] in *.
  - destruct (fill_inside par n x Hnd Hx) as (H1 & _).
    cbn. now apply Nat.eqb_neq.
  - assert (Hin : In x (all_ids (plug r (fill par n)))).
    { apply in_plug. rewrite all_ids_fill. right. apply in_or_app. right.
      apply in_or_app. now left. }
    destruct (fill_inside f _ x Hnd Hin) as (H1 & _).
    cbn. now apply Nat.eqb_neq.
Qed.

Lemma wrap_tree_here g gt gc ga gk cid hid h par :
  let gnode := Elem g gt gc ga gk in
  NoDup (all_ids (fill par gnode)) ->
  ~ In cid (all_ids (fill par gnode)) -> ~ In hid (all_ids (fill par gnode)) ->
  cid <> hid ->
  wrap_tree g gnode cid hid h (fill par gnode) =
  fill par (container_node cid h [styled_svg gnode; hint_node hid]).
Proof.
  intros gnode Hnd Hc Hh Hch.
  assert (Hg : In g (all_ids gnode)) by (unfold gnode; rewrite all_ids_elem; now left).
  destruct (fill_inside par gnode g Hnd Hg) as (Hqg & HgA & HgP).
  destruct (fill_fresh par gnode cid Hc) as (Hqc & HcA & HcP & Hcg).
  destruct (fill_fresh par gnode hid Hh) as (Hqh & HhA & HhP & Hhg).
  assert (Hgc : g <> cid) by (intros E; apply Hcg; now rewrite <- E).
  assert (Hgh : g <> hid) by (intros E; apply Hhg; now rewrite <- E).
  assert (Hidg : is_id g gnode = true) by (cbn; apply Nat.eqb_refl).
  assert (Hidc : forall ks, is_id cid (container_node cid h ks) = true)
    by (intros; cbn; apply Nat.eqb_refl).
  unfold wrap_tree, fill.
  rewrite (remove_node_absent cid) by exact Hc.
  fold (fill par gnode). unfold fill.
  rewrite insert_before_here by assumption.
  assert (E : remove_node g
                (Elem (f_id par) (f_tag par) (f_classes par) (f_attrs par)
                   (f_left par ++ container_node cid h [] :: gnode :: f_right par))
              = Elem (f_id par) (f_tag par) (f_classes par) (f_attrs par)
                   (f_left par ++ container_node cid h [] :: f_right par)).
  { pose proof (remove_here g (f_id par) (f_tag par) (f_classes par)
                  (f_attrs par) (f_left par ++ [container_node cid h []])
                  gnode (f_right par)) as R.
    rewrite <- !app_assoc in R. cbn [app] in R. apply R; auto.
    rewrite ids_forest_app. intros Hi. apply in_app_or in Hi.
    destruct Hi as [Hi|Hi]; [now apply HgA|].
    cbn in Hi. destruct Hi as [Hi|[]]. now apply Hgc. }
  rewrite E. clear E.
  rewrite update_top; auto.
  cbn [append_kid container_node app].
  rewrite (remove_node_absent hid).
  2: { rewrite all_ids_elem.
       change (flat_map all_ids
                 (f_left par ++ Elem cid "div" ["mermaid-container"]
                                  (container_style h) [gnode] :: f_right par))
         with (ids_forest
                 (f_left par ++ Elem cid "div" ["mermaid-container"]
                                  (container_style h) [gnode] :: f_right par)).
       rewrite ids_forest_app, ids_forest_cons, all_ids_elem.
       cbn [flat_map]. rewrite app_nil_r.
       intros [Hi|Hi]; [now apply Hqh|].
       apply in_app_or in Hi. destruct Hi as [Hi|Hi]; [now apply HhA|].
       cbn [app] in Hi. destruct Hi as [Hi|Hi]; [now apply Hch|].
       apply in_app_or in Hi. destruct Hi as [Hi|Hi]; [now apply Hhg|].
       now apply HhP. }
  rewrite update_top; auto; [|cbn; apply Nat.eqb_refl].
  cbn [append_kid app].
  rewrite update_node_kid by assumption.
  rewrite (update_top0 g _ cid);
    [|auto|cbn; intros [Hi|[]]; now apply Hgh|exact Hidg].
  rewrite update_node_kid by assumption.
  rewrite (update_top0 g _ cid);
    [|auto|cbn; intros [Hi|[]]; now apply Hgh|cbn; apply Nat.eqb_refl].
  reflexivity.
Qed.

Lemma wrap_plug g gt gc ga gk cid hid h par ctx :
  let gnode := Elem g gt gc ga gk in
  NoDup (all_ids (plug ctx (fill par gnode))) ->
  ~ In cid (all_ids (plug ctx (fill par gnode))) ->
  ~ In hid (all_ids (plug ctx (fill par gnode))) ->
  cid <> hid ->
  wrap_tree g gnode cid hid h (plug ctx (fill par gnode)) =
  plug ctx (fill par (container_node cid h [styled_svg gnode; hint_node hid])).
Proof.
  intros gnode. induction ctx as [|f r IH]; intros Hnd Hc Hh Hch.
  - now apply wrap_tree_here.
  - cbn [plug] in *.
    assert (Hg : In g (all_ids gnode))
      by (unfold gnode; rewrite all_ids_elem; now left).
    assert (Hin : In g (all_ids (plug r (fill par gnode)))).
    { apply in_plug. rewrite all_ids_fill. right. apply in_or_app. right.
      apply in_or_app. now left. }
    destruct (fill_inside f _ g Hnd Hin) as (Hfg & HgA & HgP).
    destruct (fill_fresh f _ cid Hc) as (Hfc & HcA & HcP & Hc').
    destruct (fill_fresh f _ hid Hh) as (Hfh & HhA & HhP & Hh').
    unfold fill at 1. rewrite wrap_tree_kid; auto.
    + rewrite IH; auto. exact (fill_nodup _ _ Hnd).
    + intros x [<-|[<-|[<-|[]]]]; (split; [assumption|split; [assumption|]]).
      * exact (plug_root_differs r par gnode g (fill_nodup _ _ Hnd) Hg).
      * now apply is_id_absent.
      * now apply is_id_absent.
Qed.

(** X15: what [addZoomControls] does to an element anywhere in the
    document.  Whatever the element holds and wherever it is, as long as it
    has a parent, the call does not throw; a new container of height
    [max (bbox.height + 40) 300] takes the element's place among its
    siblings and holds the element, with [width] and [height] set to 100% and
    its own content untouched, followed by the hint; nothing else in the
    document changes.  The pan/zoom failure is caught: the console gets
    either the success message or the failure message. *)
Theorem X15_addZoomControls_wraps_in_place
        X w ctx par g gt gc ga gk index :
  let gnode := Elem g gt gc ga gk in
  doc (page w) = plug ctx (fill par gnode) ->
  NoDup (all_ids (doc (page w))) ->
  (forall x, In x (all_ids (doc (page w))) -> x < next_id w) ->
  exists w',
    addZoomControls X w g index = Normal w' /\
    doc (page w') =
      plug ctx
        (fill par
           (container_node (next_id w)
              (height_px X gnode)
              [styled_svg gnode; hint_node (S (next_id w))])) /\
    panzoom w' = panzoom w ++
      (if svgPanZoom_throws X (styled_svg gnode) then [] else [g]) /\
    console w' = console w ++
      [if svgPanZoom_throws X (styled_svg gnode)
       then LogError "[Mermaid] Failed to enable zoom:"
       else Log "[Mermaid] Zoom enabled for diagram"].
Proof.
  intros gnode Hdoc Hnd Hlt.
  assert (Hg : In g (all_ids gnode))
    by (unfold gnode; rewrite all_ids_elem; now left).
  assert (Hgf : In g (all_ids (fill par gnode))).
  { rewrite all_ids_fill. right. apply in_or_app. right. apply in_or_app.
    now left. }
  assert (Hfresh : forall x, next_id w <= x ->
                             ~ In x (all_ids (plug ctx (fill par gnode)))).
  { intros x Hx Hi. rewrite <- Hdoc in Hi. apply Hlt in Hi. lia. }
  rewrite Hdoc in Hnd.
  pose proof (plug_nodup ctx _ Hnd) as Hndf.
  destruct (fill_inside par gnode g Hndf Hg) as (Hqg & HgA & _).
  assert (Hidg : is_id g gnode = true) by (cbn; apply Nat.eqb_refl).
  assert (Hget : dom_get (page w) g = Some gnode).
  { apply dom_get_doc. rewrite Hdoc. apply find_plug; auto.
    unfold fill. apply find_top; auto. }
  assert (Hpar : parentNode (page w) g = Some (fill par gnode)).
  { assert (Hp : path_to g (fill par gnode) = [fill par gnode; gnode]).
    { unfold fill. rewrite path_to_kid; auto.
      - now rewrite (@path_to_root g gnode Hidg).
      - rewrite (@path_to_root g gnode Hidg). discriminate. }
    destruct (path_plug g ctx (fill par gnode) Hnd Hgf) as (l & Hl).
    { rewrite Hp. discriminate. }
    unfold parentNode. rewrite ancestors_doc.
    - rewrite Hdoc, Hl, Hp, rev_app_distr. reflexivity.
    - rewrite Hdoc, Hl, Hp. intros E. apply app_eq_nil in E.
      destruct E. discriminate. }
  destruct (addZoomControls_doc X w g index gnode _ Hget Hpar)
    as (w' & Hw & Hd & _ & _ & _ & _ & _ & _ & Hpz & Hcon).
  exists w'. split; [exact Hw|]. split; [|split; assumption].
  rewrite Hd, Hdoc. apply wrap_plug; auto.
Qed.

Lemma X15_witness :
  exists w',
    addZoomControls sample_externals deep_page 4 0 = Normal w' /\
    doc (page w') =
    body_of
      [Elem 1 "main" [] []
         [Elem 2 "div" ["mermaid"] [("data-processed", "true")]
            [Elem 3 "style" [] [] [];
             container_node 6 "300px"
               [Elem 4 "svg" []
                     [("id", "mermaid-0"); ("style.width", "100%");
                      ("style.height", "100%")]
                     [Elem 5 "g" [] [] [Text "A"]];
                hint_node 7]]]].
Proof.
  destruct (X15_addZoomControls_wraps_in_place sample_externals deep_page
              [Frame 0 "body" [] [] [] []; Frame 1 "main" [] [] [] []]
              (Frame 2 "div" ["mermaid"] [("data-processed", "true")]
                     [Elem 3 "style" [] [] []] [])
              4 "svg" [] [("id", "mermaid-0")] [Elem 5 "g" [] [] [Text "A"]] 0)
    as (w' & Hw & Hd & _).
  - reflexivity.
  - vm_compute. repeat constructor; cbn; intuition discriminate.
  - vm_compute. intros x Hx.
    repeat (destruct Hx as [<-|Hx]; [lia|]). contradiction.
  - exists w'. split; [exact Hw|exact Hd].
Defined.

(* ------------------------------------------------------------------ *)
(** ** The conversion of a block anywhere in the document *)

Lemma replace_node_kid i new b t c a pre k post :
  ~ In i (ids_forest pre) -> ~ In i (ids_forest post) -> is_id i k = false ->
  replace_node i new (Elem b t c a (pre ++ k :: post)) =
  Elem b t c a (pre ++ replace_node i new k :: post).
Proof.
  intros Hpre Hpost Hk. cbn. f_equal.
  rewrite map_app. cbn [map]. rewrite Hk.
  f_equal; [|f_equal].
  - apply map_fixed. intros x Hx.
    assert (Hx' : ~ In i (all_ids x)) by (exact (@absent_forest _ _ _ Hpre Hx)).
    now rewrite is_id_absent, replace_node_absent.
  - apply map_fixed. intros x Hx.
    assert (Hx' : ~ In i (all_ids x)) by (exact (@absent_forest _ _ _ Hpost Hx)).
    now rewrite is_id_absent, replace_node_absent.
Qed.

Lemma plug_app ctx par n : plug (ctx ++ [par]) n = plug ctx (fill par n).
Proof. induction ctx as [|f r IH]; [reflexivity|]. cbn [app plug]. now rewrite IH. Qed.

Lemma in_fill par k x : In x (all_ids k) -> In x (all_ids (fill par k)).
Proof.
  intros H. rewrite all_ids_fill. right. apply in_or_app. right.
  apply in_or_app. now left.
Qed.

Lemma replace_plug i new par k ctx :
  NoDup (all_ids (plug ctx (fill par k))) -> is_id i k = true ->
  In i (all_ids k) ->
  replace_node i new (plug ctx (fill par k)) = plug ctx (fill par new).
Proof.
  intros Hnd Hk Hi. induction ctx as [|f r IH]; cbn [plug] in *.
  - destruct (fill_inside par k i Hnd Hi) as (_ & HA & HP).
    unfold fill. now apply replace_node_top.
  - destruct (fill_inside f _ i Hnd (in_plug r _ i (in_fill par k i Hi)))
      as (_ & HA & HP).
    unfold fill at 1. rewrite replace_node_kid; auto.
    + rewrite IH; [reflexivity|]. exact (fill_nodup _ _ Hnd).
    + exact (plug_root_differs r par k i (fill_nodup _ _ Hnd) Hi).
Qed.

Lemma path_below g par k ctx :
  NoDup (all_ids (plug ctx (fill par k))) -> is_id g k = true ->
  In g (all_ids k) ->
  exists l, path_to g (plug ctx (fill par k)) = l ++ [fill par k; k].
Proof.
  intros Hnd Hk Hg.
  pose proof (plug_nodup ctx _ Hnd) as Hndf.
  destruct (fill_inside par k g Hndf Hg) as (Hqg & HgA & _).
  assert (Hp : path_to g (fill par k) = [fill par k; k]).
  { unfold fill. rewrite path_to_kid; auto.
    - now rewrite (@path_to_root g k Hk).
    - rewrite (@path_to_root g k Hk). discriminate. }
  destruct (path_plug g ctx (fill par k) Hnd (in_fill par k g Hg)) as (l & Hl).
  { rewrite Hp. discriminate. }
  exists l. now rewrite Hl, Hp.
Qed.

Lemma find_below g par k ctx :
  NoDup (all_ids (plug ctx (fill par k))) -> is_id g k = true ->
  In g (all_ids k) ->
  find_node g (plug ctx (fill par k)) = Some k.
Proof.
  intros Hnd Hk Hg.
  pose proof (plug_nodup ctx _ Hnd) as Hndf.
  destruct (fill_inside par k g Hndf Hg) as (Hqg & HgA & _).
  apply find_plug; auto using in_fill.
  unfold fill. now apply find_top.
Qed.

Lemma replaceWith_plug d ctx par k i new n :
  doc d = plug ctx (fill par k) -> is_id i k = true -> In i (all_ids k) ->
  NoDup (all_ids (doc d)) ->
  node_id new = Some n -> ~ In n (all_ids (doc d)) ->
  doc (replaceWith d i new) = plug ctx (fill par new).
Proof.
  intros Hdoc Hk Hi Hnd Hnew Hn. unfold replaceWith.
  rewrite Hdoc in Hnd.
  destruct (path_below i par k ctx Hnd Hk Hi) as (l & Hl).
  unfold parentNode. rewrite ancestors_doc.
  2: { rewrite Hdoc, Hl. intros E. apply app_eq_nil in E.
       destruct E. discriminate. }
  rewrite Hdoc, Hl, rev_app_distr. cbn [List.rev app].
  unfold adopt. rewrite Hnew.
  assert (Hd1 : doc (dom_detach d n) = doc d).
  { unfold dom_detach. cbn [doc]. now apply remove_node_absent. }
  assert (Hget : dom_get (dom_detach d n) i = Some k).
  { apply dom_get_doc. rewrite Hd1, Hdoc. now apply find_below. }
  rewrite Hget. cbn [doc map_trees]. rewrite Hd1, Hdoc.
  now apply replace_plug.
Qed.

(** X16: a diagram block inside a [figure] is replaced together with
    everything else the [figure] holds.  Wherever the [figure] is in the
    document and whatever stands beside the [pre] in it (a caption, a copy
    button), one iteration of the conversion loop appends the text of the
    first [code] element below the [pre] to [window.mermaidSources] and puts
    a new [div.mermaid], holding that text and the loop index as
    [data-block-index], in the place of the whole [figure]; the rest of the
    document is unchanged. *)
Theorem X16_figure_is_replaced_whole
        X w ctx par fig p pc pa pk code index :
  let pre := Elem p "pre" pc pa pk in
  f_tag fig = "figure" ->
  doc (page w) = plug ctx (fill par (fill fig pre)) ->
  NoDup (all_ids (doc (page w))) ->
  (forall x, In x (all_ids (doc (page w))) -> x < next_id w) ->
  querySelector sel_code pre = Some code ->
  let content := code_content X code in
  let w' := convert_block X w p index in
  doc (page w') =
    plug ctx
      (fill par
         (Elem (next_id w) "div" ["mermaid"]
               [("data-block-index", string_of_nat index)]
               (text_kids content))) /\
  mermaidSources w' = mermaidSources w ++ [content].
Proof.
  intros pre Htag Hdoc Hnd Hlt Hcode content w'. subst w'.
  assert (Hfresh : ~ In (next_id w) (all_ids (doc (page w)))).
  { intros Hi. apply Hlt in Hi. lia. }
  assert (Hidp : is_id p pre = true) by (cbn; apply Nat.eqb_refl).
  assert (Hp : In p (all_ids pre))
    by (unfold pre; rewrite all_ids_elem; now left).
  assert (Hidf : is_id (f_id fig) (fill fig pre) = true)
    by (cbn; apply Nat.eqb_refl).
  assert (Hf : In (f_id fig) (all_ids (fill fig pre)))
    by (rewrite all_ids_fill; now left).
  pose proof Hnd as Hnd'. rewrite Hdoc in Hnd'.
  assert (Hnd2 : NoDup (all_ids (plug (ctx ++ [par]) (fill fig pre))))
    by now rewrite plug_app.
  assert (Hget : dom_get (page w) p = Some pre).
  { apply dom_get_doc. rewrite Hdoc, <- plug_app. now apply find_below. }
  unfold convert_block. rewrite Hget, Hcode.
  fold (code_content X code). fold content.
  cbn [push_source log with_next page next_id].
  assert (Hclo : closest sel_figure (page w) p = Some (fill fig pre)).
  { destruct (path_below p fig pre (ctx ++ [par]) Hnd2 Hidp Hp) as (l & Hl).
    rewrite plug_app in Hl.
    unfold closest. rewrite ancestors_doc.
    2: { rewrite Hdoc, Hl. intros E. apply app_eq_nil in E.
         destruct E. discriminate. }
    rewrite Hdoc, Hl, rev_app_distr. cbn [List.rev app find].
    change (sel_figure pre) with false. cbn iota.
    unfold sel_figure, fill, has_tag. now rewrite Htag. }
  rewrite Hclo. unfold fill at 1. cbn [with_page page mermaidSources].
  split; [|reflexivity].
  apply (replaceWith_plug (page w) ctx par (fill fig pre) (f_id fig) _
           (next_id w)); auto.
Qed.

Lemma X16_witness :
  doc (page (convert_block sample_externals framed_page 4 0)) =
  body_of
    [Elem 1 "div" ["expressive-code"] []
       [Elem 8 "div" ["mermaid"] [("data-block-index", "0")]
             [Text "graph LR"]]].
Proof.
  apply (X16_figure_is_replaced_whole sample_externals framed_page
           [Frame 0 "body" [] [] [] []]
           (Frame 1 "div" ["expressive-code"] [] [] [])
           (Frame 2 "figure" ["frame"] []
                  [Elem 3 "figcaption" ["header"] [] []]
                  [Elem 6 "div" ["copy"] [] [Elem 7 "button" [] [] []]])
           4 [] [("data-language", "mermaid")]
           [Elem 5 "code" [] [] [Text "graph LR"]]
           (Elem 5 "code" [] [] [Text "graph LR"]) 0).
  - reflexivity.
  - reflexivity.
  - vm_compute. repeat constructor; cbn; intuition discriminate.
  - vm_compute. intros x Hx.
    repeat (destruct Hx as [<-|Hx]; [lia|]). contradiction.
  - reflexivity.
Defined.

(* ------------------------------------------------------------------ *)
(** ** What the first pass draws *)




